(** * SMS_Sender: PDU codec, message splitter and outbox retry logic

  A shallow embedding of [lib/encoding.py], [lib/pdu.py], the PDU-building
  part of [lib/modem.py] and the outcome handling of [lib/database.py],
  followed by the properties established about them.

  Python values are modelled as follows.
  - [str] is a list of Unicode code points ([pystr], a [list Z]); [len] is
    the number of code points.
  - [int] is [Z]; [//] is [Z.div] (both floor), [%] is [Z.modulo].
  - [bytes] and lists of small integers are [list Z].
  - A raised exception is [None] in an [option] result. *)

From Stdlib Require Import String Ascii ZArith List Bool Lia.
Import ListNotations.
Open Scope Z_scope.

Set Implicit Arguments.

(** ** Python built-ins used by the sources *)
Module Py.

Definition pystr := list Z.

(** An ASCII literal as a Python string. *)
Definition lit (s : string) : pystr :=
  map (fun a => Z.of_N (N_of_ascii a)) (list_ascii_of_string s).

Definition len {A} (l : list A) : Z := Z.of_nat (length l).

(** [c in s] for a one-character [c]. *)
Definition char_in (c : Z) (s : pystr) : bool := existsb (Z.eqb c) s.

(** [s.index(c)] for a one-character [c]; [None] is [ValueError]. *)
Fixpoint index (c : Z) (s : pystr) : option Z :=
  match s with
  | [] => None
  | x :: rest =>
      if x =? c then Some 0
      else match index c rest with
           | Some i => Some (i + 1)
           | None => None
           end
  end.

(** Key lookup in a [dict] literal, kept as an association list. *)
Fixpoint dict_get (c : Z) (d : list (Z * Z)) : option Z :=
  match d with
  | [] => None
  | (k, v) :: rest => if k =? c then Some v else dict_get c rest
  end.

(** [range(start, stop, step)]; a zero step raises [ValueError]. *)
Definition range (start stop step : Z) : option (list Z) :=
  if step =? 0 then None
  else
    let n := if 0 <? step
             then (stop - start + step - 1) / step
             else (start - stop - step - 1) / (- step) in
    Some (map (fun k => start + Z.of_nat k * step) (seq 0 (Z.to_nat n))).

(** [s[i:j]] with Python's treatment of negative and overlong bounds. *)
Definition clamp {A} (s : list A) (k : Z) : Z :=
  if k <? 0 then Z.max 0 (k + len s) else Z.min k (len s).

Definition slice {A} (s : list A) (i j : Z) : list A :=
  let i' := clamp s i in
  let j' := clamp s j in
  firstn (Z.to_nat (j' - i')) (skipn (Z.to_nat i') s).

(** [s[:n]] for a literal non-negative [n]. *)
Definition prefix {A} (n : nat) (s : list A) : list A := firstn n s.

(** [s.startswith(p)] and [p in s] for strings. *)
Fixpoint startswith (s p : pystr) : bool :=
  match p, s with
  | [], _ => true
  | _ :: _, [] => false
  | a :: p', b :: s' => (a =? b) && startswith s' p'
  end.

Fixpoint contains (s p : pystr) : bool :=
  startswith s p ||
  match s with
  | [] => false
  | _ :: s' => contains s' p
  end.

(** [s.count(p)] for a non-empty [p]: non-overlapping occurrences, scanning
    from the left.  [skip] counts the characters of a match still to pass. *)
Fixpoint count_from (s p : pystr) (skip : nat) : Z :=
  match s with
  | [] => 0
  | _ :: s' =>
      match skip with
      | S k => count_from s' p k
      | O => if startswith s p
             then 1 + count_from s' p (length p - 1)
             else count_from s' p 0
      end
  end.

Definition count (s p : pystr) : Z := count_from s p 0.

(** [enumerate(l, start)] *)
Fixpoint enumerate {A} (start : Z) (l : list A) : list (Z * A) :=
  match l with
  | [] => []
  | x :: rest => (start, x) :: enumerate (start + 1) rest
  end.

(** [sep.join(l)] *)
Fixpoint join (sep : pystr) (l : list pystr) : pystr :=
  match l with
  | [] => []
  | [x] => x
  | x :: rest => x ++ sep ++ join sep rest
  end.

(** [str.isspace] on one character: the white-space code points of
    Unicode 14.0, as inclusive ranges. *)
Definition space_ranges : list (Z * Z) :=
  [ (9, 13); (28, 32); (133, 133); (160, 160); (5760, 5760); (8192, 8202);
    (8232, 8233); (8239, 8239); (8287, 8287); (12288, 12288) ].

Definition isspace (c : Z) : bool :=
  existsb (fun '(lo, hi) => (lo <=? c) && (c <=? hi)) space_ranges.

Fixpoint lstrip (s : pystr) : pystr :=
  match s with
  | [] => []
  | c :: rest => if isspace c then lstrip rest else s
  end.

(** [s.strip()] *)
Definition strip (s : pystr) : pystr := rev (lstrip (rev (lstrip s))).

(** [str.upper] maps every code point on its own.  The code points with a
    one-character upper case are kept as runs [(lo, hi, step, delta)]: every
    [step]-th code point from [lo] to [hi] moves by [delta].  The code points
    whose upper case has several characters are listed in full.
    (Unicode 14.0.) *)
Definition upper_runs : list (Z * Z * Z * Z) :=
  [
    (97, 122, 1, (-32)); (181, 181, 1, 743); (224, 246, 1, (-32));
    (248, 254, 1, (-32)); (255, 255, 1, 121); (257, 303, 2, (-1));
    (305, 305, 1, (-232)); (307, 311, 2, (-1)); (314, 328, 2, (-1));
    (331, 375, 2, (-1)); (378, 382, 2, (-1)); (383, 383, 1, (-300));
    (384, 384, 1, 195); (387, 389, 2, (-1)); (392, 392, 1, (-1));
    (396, 396, 1, (-1)); (402, 402, 1, (-1)); (405, 405, 1, 97);
    (409, 409, 1, (-1)); (410, 410, 1, 163); (414, 414, 1, 130);
    (417, 421, 2, (-1)); (424, 424, 1, (-1)); (429, 429, 1, (-1));
    (432, 432, 1, (-1)); (436, 438, 2, (-1)); (441, 441, 1, (-1));
    (445, 445, 1, (-1)); (447, 447, 1, 56); (453, 453, 1, (-1));
    (454, 454, 1, (-2)); (456, 456, 1, (-1)); (457, 457, 1, (-2));
    (459, 459, 1, (-1)); (460, 460, 1, (-2)); (462, 476, 2, (-1));
    (477, 477, 1, (-79)); (479, 495, 2, (-1)); (498, 498, 1, (-1));
    (499, 499, 1, (-2)); (501, 501, 1, (-1)); (505, 543, 2, (-1));
    (547, 563, 2, (-1)); (572, 572, 1, (-1)); (575, 576, 1, 10815);
    (578, 578, 1, (-1)); (583, 591, 2, (-1)); (592, 592, 1, 10783);
    (593, 593, 1, 10780); (594, 594, 1, 10782); (595, 595, 1, (-210));
    (596, 596, 1, (-206)); (598, 599, 1, (-205)); (601, 601, 1, (-202));
    (603, 603, 1, (-203)); (604, 604, 1, 42319); (608, 608, 1, (-205));
    (609, 609, 1, 42315); (611, 611, 1, (-207)); (613, 613, 1, 42280);
    (614, 614, 1, 42308); (616, 616, 1, (-209)); (617, 617, 1, (-211));
    (618, 618, 1, 42308); (619, 619, 1, 10743); (620, 620, 1, 42305);
    (623, 623, 1, (-211)); (625, 625, 1, 10749); (626, 626, 1, (-213));
    (629, 629, 1, (-214)); (637, 637, 1, 10727); (640, 640, 1, (-218));
    (642, 642, 1, 42307); (643, 643, 1, (-218)); (647, 647, 1, 42282);
    (648, 648, 1, (-218)); (649, 649, 1, (-69)); (650, 651, 1, (-217));
    (652, 652, 1, (-71)); (658, 658, 1, (-219)); (669, 669, 1, 42261);
    (670, 670, 1, 42258); (837, 837, 1, 84); (881, 883, 2, (-1));
    (887, 887, 1, (-1)); (891, 893, 1, 130); (940, 940, 1, (-38));
    (941, 943, 1, (-37)); (945, 961, 1, (-32)); (962, 962, 1, (-31));
    (963, 971, 1, (-32)); (972, 972, 1, (-64)); (973, 974, 1, (-63));
    (976, 976, 1, (-62)); (977, 977, 1, (-57)); (981, 981, 1, (-47));
    (982, 982, 1, (-54)); (983, 983, 1, (-8)); (985, 1007, 2, (-1));
    (1008, 1008, 1, (-86)); (1009, 1009, 1, (-80)); (1010, 1010, 1, 7);
    (1011, 1011, 1, (-116)); (1013, 1013, 1, (-96)); (1016, 1016, 1, (-1));
    (1019, 1019, 1, (-1)); (1072, 1103, 1, (-32)); (1104, 1119, 1, (-80));
    (1121, 1153, 2, (-1)); (1163, 1215, 2, (-1)); (1218, 1230, 2, (-1));
    (1231, 1231, 1, (-15)); (1233, 1327, 2, (-1)); (1377, 1414, 1, (-48));
    (4304, 4346, 1, 3008); (4349, 4351, 1, 3008); (5112, 5117, 1, (-8));
    (7296, 7296, 1, (-6254)); (7297, 7297, 1, (-6253));
    (7298, 7298, 1, (-6244)); (7299, 7300, 1, (-6242));
    (7301, 7301, 1, (-6243)); (7302, 7302, 1, (-6236));
    (7303, 7303, 1, (-6181)); (7304, 7304, 1, 35266); (7545, 7545, 1, 35332);
    (7549, 7549, 1, 3814); (7566, 7566, 1, 35384); (7681, 7829, 2, (-1));
    (7835, 7835, 1, (-59)); (7841, 7935, 2, (-1)); (7936, 7943, 1, 8);
    (7952, 7957, 1, 8); (7968, 7975, 1, 8); (7984, 7991, 1, 8);
    (8000, 8005, 1, 8); (8017, 8023, 2, 8); (8032, 8039, 1, 8);
    (8048, 8049, 1, 74); (8050, 8053, 1, 86); (8054, 8055, 1, 100);
    (8056, 8057, 1, 128); (8058, 8059, 1, 112); (8060, 8061, 1, 126);
    (8112, 8113, 1, 8); (8126, 8126, 1, (-7205)); (8144, 8145, 1, 8);
    (8160, 8161, 1, 8); (8165, 8165, 1, 7); (8526, 8526, 1, (-28));
    (8560, 8575, 1, (-16)); (8580, 8580, 1, (-1)); (9424, 9449, 1, (-26));
    (11312, 11359, 1, (-48)); (11361, 11361, 1, (-1));
    (11365, 11365, 1, (-10795)); (11366, 11366, 1, (-10792));
    (11368, 11372, 2, (-1)); (11379, 11379, 1, (-1));
    (11382, 11382, 1, (-1)); (11393, 11491, 2, (-1));
    (11500, 11502, 2, (-1)); (11507, 11507, 1, (-1));
    (11520, 11557, 1, (-7264)); (11559, 11559, 1, (-7264));
    (11565, 11565, 1, (-7264)); (42561, 42605, 2, (-1));
    (42625, 42651, 2, (-1)); (42787, 42799, 2, (-1));
    (42803, 42863, 2, (-1)); (42874, 42876, 2, (-1));
    (42879, 42887, 2, (-1)); (42892, 42892, 1, (-1));
    (42897, 42899, 2, (-1)); (42900, 42900, 1, 48); (42903, 42921, 2, (-1));
    (42933, 42947, 2, (-1)); (42952, 42954, 2, (-1));
    (42961, 42961, 1, (-1)); (42967, 42969, 2, (-1));
    (42998, 42998, 1, (-1)); (43859, 43859, 1, (-928));
    (43888, 43967, 1, (-38864)); (65345, 65370, 1, (-32));
    (66600, 66639, 1, (-40)); (66776, 66811, 1, (-40));
    (66967, 66977, 1, (-39)); (66979, 66993, 1, (-39));
    (66995, 67001, 1, (-39)); (67003, 67004, 1, (-39));
    (68800, 68850, 1, (-64)); (71872, 71903, 1, (-32));
    (93792, 93823, 1, (-32)); (125218, 125251, 1, (-34)) ].

Definition upper_special : list (Z * list Z) :=
  [
    (223, [83; 83]); (329, [700; 78]); (496, [74; 780]);
    (912, [921; 776; 769]); (944, [933; 776; 769]); (1415, [1333; 1362]);
    (7830, [72; 817]); (7831, [84; 776]); (7832, [87; 778]);
    (7833, [89; 778]); (7834, [65; 702]); (8016, [933; 787]);
    (8018, [933; 787; 768]); (8020, [933; 787; 769]);
    (8022, [933; 787; 834]); (8064, [7944; 921]); (8065, [7945; 921]);
    (8066, [7946; 921]); (8067, [7947; 921]); (8068, [7948; 921]);
    (8069, [7949; 921]); (8070, [7950; 921]); (8071, [7951; 921]);
    (8072, [7944; 921]); (8073, [7945; 921]); (8074, [7946; 921]);
    (8075, [7947; 921]); (8076, [7948; 921]); (8077, [7949; 921]);
    (8078, [7950; 921]); (8079, [7951; 921]); (8080, [7976; 921]);
    (8081, [7977; 921]); (8082, [7978; 921]); (8083, [7979; 921]);
    (8084, [7980; 921]); (8085, [7981; 921]); (8086, [7982; 921]);
    (8087, [7983; 921]); (8088, [7976; 921]); (8089, [7977; 921]);
    (8090, [7978; 921]); (8091, [7979; 921]); (8092, [7980; 921]);
    (8093, [7981; 921]); (8094, [7982; 921]); (8095, [7983; 921]);
    (8096, [8040; 921]); (8097, [8041; 921]); (8098, [8042; 921]);
    (8099, [8043; 921]); (8100, [8044; 921]); (8101, [8045; 921]);
    (8102, [8046; 921]); (8103, [8047; 921]); (8104, [8040; 921]);
    (8105, [8041; 921]); (8106, [8042; 921]); (8107, [8043; 921]);
    (8108, [8044; 921]); (8109, [8045; 921]); (8110, [8046; 921]);
    (8111, [8047; 921]); (8114, [8122; 921]); (8115, [913; 921]);
    (8116, [902; 921]); (8118, [913; 834]); (8119, [913; 834; 921]);
    (8124, [913; 921]); (8130, [8138; 921]); (8131, [919; 921]);
    (8132, [905; 921]); (8134, [919; 834]); (8135, [919; 834; 921]);
    (8140, [919; 921]); (8146, [921; 776; 768]); (8147, [921; 776; 769]);
    (8150, [921; 834]); (8151, [921; 776; 834]); (8162, [933; 776; 768]);
    (8163, [933; 776; 769]); (8164, [929; 787]); (8166, [933; 834]);
    (8167, [933; 776; 834]); (8178, [8186; 921]); (8179, [937; 921]);
    (8180, [911; 921]); (8182, [937; 834]); (8183, [937; 834; 921]);
    (8188, [937; 921]); (64256, [70; 70]); (64257, [70; 73]);
    (64258, [70; 76]); (64259, [70; 70; 73]); (64260, [70; 70; 76]);
    (64261, [83; 84]); (64262, [83; 84]); (64275, [1348; 1350]);
    (64276, [1348; 1333]); (64277, [1348; 1339]); (64278, [1358; 1350]);
    (64279, [1348; 1341]) ].

Fixpoint special_get (c : Z) (t : list (Z * list Z)) : option (list Z) :=
  match t with
  | [] => None
  | (k, v) :: rest => if k =? c then Some v else special_get c rest
  end.

Fixpoint run_get (c : Z) (t : list (Z * Z * Z * Z)) : option Z :=
  match t with
  | [] => None
  | (lo, hi, step, delta) :: rest =>
      if (lo <=? c) && (c <=? hi) && ((c - lo) mod step =? 0)
      then Some delta
      else run_get c rest
  end.

Definition upper_char (c : Z) : pystr :=
  match special_get c upper_special with
  | Some u => u
  | None =>
      match run_get c upper_runs with
      | Some delta => [c + delta]
      | None => [c]
      end
  end.

(** [s.upper()] *)
Definition upper (s : pystr) : pystr := flat_map upper_char s.

(** [str(n)] for an [int]: decimal digits, with a minus sign when negative. *)
Fixpoint dec_digits (fuel : nat) (n : Z) (acc : pystr) : pystr :=
  match fuel with
  | O => acc
  | S fuel' =>
      let acc := 48 + n mod 10 :: acc in
      if n / 10 =? 0 then acc else dec_digits fuel' (n / 10) acc
  end.

Definition str_of_int (n : Z) : pystr :=
  let digits := dec_digits (S (Z.to_nat (Z.log2 (Z.abs n)))) (Z.abs n) [] in
  if n <? 0 then 45 :: digits else digits.

Definition nonempty (p : pystr) : Prop := p <> [].

(** [a == b] on strings. *)
Fixpoint str_eqb (a b : pystr) : bool :=
  match a, b with
  | [], [] => true
  | x :: a', y :: b' => (x =? y) && str_eqb a' b'
  | _, _ => false
  end.

(** [s.split(sep)] for a non-empty [sep].  [skip] counts the characters of a
    separator still to pass, [piece] is the piece read so far. *)
Fixpoint split_from (s sep : pystr) (skip : nat) (piece : pystr)
    : list pystr :=
  match s with
  | [] => [piece]
  | c :: rest =>
      match skip with
      | S k => split_from rest sep k piece
      | O =>
          if startswith s sep
          then piece :: split_from rest sep (length sep - 1) []
          else split_from rest sep 0 (piece ++ [c])
      end
  end.

Definition split (s sep : pystr) : list pystr := split_from s sep 0 [].

End Py.
Import Py.

(** ** lib/encoding.py *)
Module Encoding.

(** The basic table literal of the sources: 127 characters, listed by code
    point in the order of the literal. *)
Definition gsm7_basic : pystr :=
  [ 64; 163; 36; 165; 232; 233; 249; 236; 242; 199; 10; 216; 248; 13; 197; 229;
    916; 95; 934; 915; 923; 937; 928; 936; 931; 920; 926; 198; 230; 223; 201;
    32; 33; 34; 35; 164; 37; 38; 39; 40; 41; 42; 43; 44; 45; 46; 47;
    48; 49; 50; 51; 52; 53; 54; 55; 56; 57; 58; 59; 60; 61; 62; 63;
    161; 65; 66; 67; 68; 69; 70; 71; 72; 73; 74; 75; 76; 77; 78; 79;
    80; 81; 82; 83; 84; 85; 86; 87; 88; 89; 90; 196; 214; 209; 220; 167;
    191; 97; 98; 99; 100; 101; 102; 103; 104; 105; 106; 107; 108; 109; 110; 111;
    112; 113; 114; 115; 116; 117; 118; 119; 120; 121; 122; 228; 246; 241; 252; 224 ].

(** ["^{}\\[~]|€"] *)
Definition gsm7_extended : pystr :=
  [ 94; 123; 125; 92; 91; 126; 93; 124; 8364 ].

Fixpoint is_gsm7_compatible (text : pystr) : bool :=
  match text with
  | [] => true
  | char :: rest =>
      if negb (char_in char gsm7_basic) && negb (char_in char gsm7_extended)
      then false
      else is_gsm7_compatible rest
  end.

Inductive encoding := GSM7 | UCS2.

(** [sum(2 if c in gsm7_extended else 1 for c in text)] *)
Fixpoint weighted_count (text : pystr) : Z :=
  match text with
  | [] => 0
  | c :: rest =>
      (if char_in c gsm7_extended then 2 else 1) + weighted_count rest
  end.

Definition calculate_sms_parts (text : pystr) : Z * Z * encoding :=
  if is_gsm7_compatible text then
    let char_count := weighted_count text in
    if char_count <=? 160 then (1, 160, GSM7)
    else
      let num_parts := (char_count + 152) / 153 in
      (num_parts, 153, GSM7)
  else
    let char_count := len text in
    if char_count <=? 70 then (1, 70, UCS2)
    else
      let num_parts := (char_count + 66) / 67 in
      (num_parts, 67, UCS2).

(** The GSM7 loop of [split_message]: the state is [parts], [current_part]
    and [current_length]; the result is the state when the text is used up. *)
Fixpoint split_gsm7_loop (text : pystr) (chars_per_part : Z)
    (parts : list pystr) (current_part : pystr) (current_length : Z)
    : list pystr * pystr :=
  match text with
  | [] => (parts, current_part)
  | char :: rest =>
      let char_length := if char_in char gsm7_extended then 2 else 1 in
      if current_length + char_length <=? chars_per_part
      then split_gsm7_loop rest chars_per_part
             parts (current_part ++ [char]) (current_length + char_length)
      else split_gsm7_loop rest chars_per_part
             (parts ++ [current_part]) [char] char_length
  end.

Definition split_message (text : pystr) (chars_per_part : Z)
    : option (list pystr) :=
  if is_gsm7_compatible text then
    let '(parts, current_part) :=
      split_gsm7_loop text chars_per_part [] [] 0 in
    match current_part with
    | [] => Some parts
    | _ :: _ => Some (parts ++ [current_part])
    end
  else
    match range 0 (len text) chars_per_part with
    | None => None
    | Some idx =>
        Some (map (fun i => slice text i (i + chars_per_part)) idx)
    end.

(** [2 if char in gsm7_extended else 1], the weight of one character in
    [calculate_sms_parts] and [split_message]. *)
Definition char_weight (c : Z) : Z :=
  if char_in c gsm7_extended then 2 else 1.

End Encoding.

(** ** lib/pdu.py *)
Module Pdu.

(** The sources repeat the basic table literal of [lib/encoding.py]. *)
Definition gsm7_basic : pystr := Encoding.gsm7_basic.

(** The [gsm7_extended] dict of [encode_gsm7]: form feed, then
    [^ { } \ [ ~ ] |] and the euro sign, each with its extension code. *)
Definition gsm7_extended : list (Z * Z) :=
  [ (12, 0x0A); (94, 0x14); (123, 0x28); (125, 0x29); (92, 0x2F);
    (91, 0x3C); (126, 0x3D); (93, 0x3E); (124, 0x40); (8364, 0x65) ].

(** The first loop of [encode_gsm7]: characters to septet values. *)
Fixpoint to_septets (text : pystr) : list Z :=
  match text with
  | [] => []
  | char :: rest =>
      match dict_get char gsm7_extended with
      | Some code => 0x1B :: code :: to_septets rest
      | None =>
          match index char gsm7_basic with
          | Some i => i :: to_septets rest
          | None => 0x3F :: to_septets rest
          end
      end
  end.

(** The second loop: [i] is the index given by [enumerate], [n] is
    [len(septets)]; the result is the list of octets appended from this
    iteration on.  The shifts are Python's for [0 <= shift <= 7]. *)
Fixpoint pack_loop (septets : list Z) (n i : Z) (shift carry : Z) : list Z :=
  match septets with
  | [] => []
  | septet :: rest =>
      if shift =? 7 then pack_loop rest n (i + 1) 0 0
      else
        let octet := Z.land (Z.lor (Z.shiftl septet shift) carry) 0xFF in
        let carry := Z.shiftr septet (7 - shift) in
        let shift := shift + 1 in
        let tail := pack_loop rest n (i + 1) shift carry in
        if (i =? n - 1) && negb (carry =? 0)
        then octet :: carry :: tail
        else octet :: tail
  end.

Definition encode_gsm7 (text : pystr) : list Z :=
  let septets := to_septets text in
  pack_loop septets (len septets) 0 0 0.

(** As [encode_gsm7], with [shift] starting at [padding_bits].  A start
    outside [0..7] makes the first iteration shift by a negative count,
    which raises [ValueError]. *)
Definition encode_gsm7_with_padding (text : pystr) (padding_bits : Z)
    : option (list Z) :=
  let septets := to_septets text in
  match septets with
  | [] => Some []
  | _ :: _ =>
      if (padding_bits <? 0) || (7 <? padding_bits) then None
      else Some (pack_loop septets (len septets) 0 padding_bits 0)
  end.

(** [str.isdigit]: the code points whose Unicode numeric type is Decimal or
    Digit (Unicode 14.0), as inclusive ranges. *)
Definition digit_ranges : list (Z * Z) :=
  [ (48, 57); (178, 179); (185, 185); (1632, 1641); (1776, 1785);
    (1984, 1993); (2406, 2415); (2534, 2543); (2662, 2671); (2790, 2799);
    (2918, 2927); (3046, 3055); (3174, 3183); (3302, 3311); (3430, 3439);
    (3558, 3567); (3664, 3673); (3792, 3801); (3872, 3881); (4160, 4169);
    (4240, 4249); (4969, 4977); (6112, 6121); (6160, 6169); (6470, 6479);
    (6608, 6618); (6784, 6793); (6800, 6809); (6992, 7001); (7088, 7097);
    (7232, 7241); (7248, 7257); (8304, 8304); (8308, 8313); (8320, 8329);
    (9312, 9320); (9332, 9340); (9352, 9360); (9450, 9450); (9461, 9469);
    (9471, 9471); (10102, 10110); (10112, 10120); (10122, 10130);
    (42528, 42537); (43216, 43225); (43264, 43273); (43472, 43481);
    (43504, 43513); (43600, 43609); (44016, 44025); (65296, 65305);
    (66720, 66729); (68160, 68163); (68912, 68921); (69216, 69224);
    (69714, 69722); (69734, 69743); (69872, 69881); (69942, 69951);
    (70096, 70105); (70384, 70393); (70736, 70745); (70864, 70873);
    (71248, 71257); (71360, 71369); (71472, 71481); (71904, 71913);
    (72016, 72025); (72784, 72793); (73040, 73049); (73120, 73129);
    (92768, 92777); (92864, 92873); (93008, 93017); (120782, 120831);
    (123200, 123209); (123632, 123641); (125264, 125273);
    (127232, 127242); (130032, 130041) ].

Definition isdigit (c : Z) : bool :=
  existsb (fun '(lo, hi) => (lo <=? c) && (c <=? hi)) digit_ranges.

(** One hexadecimal digit as [bytes.fromhex] reads it. *)
Definition hex_value (c : Z) : option Z :=
  if (48 <=? c) && (c <=? 57) then Some (c - 48)
  else if (65 <=? c) && (c <=? 70) then Some (c - 55)
  else if (97 <=? c) && (c <=? 102) then Some (c - 87)
  else None.

(** [bytes.fromhex(s)] for a string without white space: two hexadecimal
    digits per byte, anything else raises [ValueError]. *)
Fixpoint fromhex (s : pystr) : option (list Z) :=
  match s with
  | [] => Some []
  | [_] => None
  | a :: b :: rest =>
      match hex_value a, hex_value b, fromhex rest with
      | Some h, Some l, Some bs => Some (16 * h + l :: bs)
      | _, _, _ => None
      end
  end.

(** [''.join(phone[i+1] + phone[i] for i in range(0, len(phone), 2))] on a
    string of even length. *)
Fixpoint swap_pairs (phone : pystr) : pystr :=
  match phone with
  | a :: b :: rest => b :: a :: swap_pairs rest
  | _ => []
  end.

Definition plus_sign : Z := 43.
Definition letter_F : Z := 70.

Definition encode_phone_number (phone : pystr) : option (Z * list Z) :=
  let phone := filter (fun c => isdigit c || (c =? plus_sign)) phone in
  let '(ton, phone) :=
    if startswith phone [plus_sign] then (0x91, skipn 1 phone)
    else (0x81, phone) in
  let phone :=
    if len phone mod 2 =? 0 then phone else phone ++ [letter_F] in
  match fromhex (swap_pairs phone) with
  | Some bs => Some (ton, bs)
  | None => None
  end.

(** [text.encode('utf-16-be')]; a lone surrogate raises
    [UnicodeEncodeError]. *)
Definition utf16_unit (u : Z) : list Z := [Z.shiftr u 8; Z.land u 0xFF].

Fixpoint encode_utf16_be (text : pystr) : option (list Z) :=
  match text with
  | [] => Some []
  | c :: rest =>
      let here :=
        if (c <? 0) || (0x10FFFF <? c) then None
        else if (0xD800 <=? c) && (c <=? 0xDFFF) then None
        else if c <? 0x10000 then Some (utf16_unit c)
        else
          let v := c - 0x10000 in
          Some (utf16_unit (0xD800 + Z.shiftr v 10) ++
                utf16_unit (0xDC00 + Z.land v 0x3FF)) in
      match here, encode_utf16_be rest with
      | Some b, Some bs => Some (b ++ bs)
      | _, _ => None
      end
  end.

(** [phone.replace('+', '')] *)
Definition remove_plus (phone : pystr) : pystr :=
  filter (fun c => negb (c =? plus_sign)) phone.

(** [padding_bits] as [create_pdu] computes it from [udh_len]. *)
Definition padding_bits_of (udh_len : Z) : Z :=
  let padding_bits := 7 - ((udh_len + 1) * 8) mod 7 in
  if padding_bits =? 7 then 0 else padding_bits.

(** The list [pdu] that [create_pdu] builds. *)
Definition create_pdu_octets (phone text : pystr)
    (ref_num part_num total_parts : Z) : option (list Z) :=
  let gsm7 := Encoding.is_gsm7_compatible text in
  match (if gsm7 then Some (encode_gsm7 text) else encode_utf16_be text) with
  | None => None
  | Some user_data =>
      let dcs := if gsm7 then 0x00 else 0x08 in
      let udl := if gsm7 then len text else len user_data in
      match encode_phone_number phone with
      | None => None
      | Some (ton, phone_encoded) =>
          let phone_len := len (remove_plus phone) in
          let pdu_type := if 1 <? total_parts then 0x41 else 0x01 in
          let pdu :=
            [0x00; pdu_type; 0x00; phone_len; ton] ++ phone_encoded
              ++ [0x00; dcs] in
          if 1 <? total_parts then
            let udh :=
              [0x00; 0x03; Z.land ref_num 0xFF; total_parts; part_num] in
            let udh_len := len udh + 1 in
            if dcs =? 0x00 then
              let padding_bits := padding_bits_of udh_len in
              let total_udl := udh_len + 1 + len text in
              let total_udl :=
                if 0 <? padding_bits then total_udl + 1 else total_udl in
              let pdu := pdu ++ [total_udl] ++ [udh_len] ++ udh in
              if 0 <? padding_bits then
                match encode_gsm7_with_padding text padding_bits with
                | Some user_data => Some (pdu ++ user_data)
                | None => None
                end
              else Some (pdu ++ user_data)
            else
              Some (pdu ++ [udh_len + 1 + udl] ++ [udh_len] ++ udh
                      ++ user_data)
          else
            Some (pdu ++ [udl] ++ user_data)
      end
  end.

(** [f'{b:02X}'] *)
Definition hex_char (d : Z) : Z := if d <? 10 then 48 + d else 55 + d.

Fixpoint hex_digits (fuel : nat) (b : Z) (acc : pystr) : pystr :=
  match fuel with
  | O => acc
  | S fuel' =>
      let acc := hex_char (b mod 16) :: acc in
      if b / 16 =? 0 then acc else hex_digits fuel' (b / 16) acc
  end.

Definition format_02X (b : Z) : pystr :=
  let digits := hex_digits (S (Z.to_nat (Z.log2 (Z.abs b)))) (Z.abs b) [] in
  if b <? 0 then 45 :: digits
  else match digits with
       | [d] => [48; d]
       | _ => digits
       end.

Definition create_pdu (phone text : pystr) (ref_num part_num total_parts : Z)
    : option (pystr * Z) :=
  match create_pdu_octets phone text ref_num part_num total_parts with
  | None => None
  | Some pdu => Some (concat (map format_02X pdu), len pdu - 1)
  end.

(** [phone += 'F'] when [len(phone) % 2], as [encode_phone_number] does
    before it swaps the pairs. *)
Definition padded (phone : pystr) : pystr :=
  if len phone mod 2 =? 0 then phone else phone ++ [letter_F].

(** The code points that UTF-16 writes as a surrogate pair, and the
    surrogate code points themselves. *)
Definition astral (c : Z) : bool := 0x10000 <=? c.
Definition surrogate (c : Z) : bool := (0xD800 <=? c) && (c <=? 0xDFFF).

(** The values of a septet and of an octet: what [bytes(...)] accepts is an
    [octet]. *)
Definition septet (s : Z) : Prop := 0 <= s < 128.
Definition octet (b : Z) : Prop := 0 <= b <= 255.

End Pdu.

(** ** lib/modem.py: the PDU-building part of [send_sms] *)
Module Modem.

(** The argument tuples [(text, ref_num, part_num, total_parts)] that
    [send_sms] passes to [create_pdu], in the order of the calls.
    [ref_num] is the value drawn by [random.randint(0, 255)]. *)
Definition create_pdu_args (text : pystr) (ref_num : Z)
    : option (list (pystr * Z * Z * Z)) :=
  let '(num_parts, chars_per_part, _) := Encoding.calculate_sms_parts text in
  if num_parts =? 1 then Some [(text, ref_num, 1, 1)]
  else
    match Encoding.split_message text chars_per_part with
    | None => None
    | Some message_parts =>
        Some (map (fun '(i, part) => (part, ref_num, i, num_parts))
                  (enumerate 1 message_parts))
    end.

Section Transport.

(** The serial line and everything behind it. *)
Variable port : Type.

(** [send_sms_pdu(ser, pdu_hex, tpdu_len, modem_timeout)]: the AT exchange
    for one PDU; it returns the accumulated response text. *)
Variable send_sms_pdu : port -> pystr -> Z -> port * pystr.

(** The loop over the parts: every part is built, sent, and its response
    collected; an exception from [create_pdu] leaves the loop. *)
Fixpoint send_parts (ser : port) (number : pystr)
    (args : list (pystr * Z * Z * Z)) : port * option (list pystr) :=
  match args with
  | [] => (ser, Some [])
  | (part, ref_num, i, num_parts) :: rest =>
      match Pdu.create_pdu number part ref_num i num_parts with
      | None => (ser, None)
      | Some (pdu_hex, tpdu_len) =>
          let '(ser, response) := send_sms_pdu ser pdu_hex tpdu_len in
          match send_parts ser number rest with
          | (ser, Some all_responses) => (ser, Some (response :: all_responses))
          | (ser, None) => (ser, None)
          end
      end
  end.

Definition send_sms (ser : port) (number text : pystr) (ref_num : Z)
    : port * option pystr :=
  match create_pdu_args text ref_num with
  | None => (ser, None)
  | Some args =>
      match send_parts ser number args with
      | (ser, Some all_responses) => (ser, Some (join [10] all_responses))
      | (ser, None) => (ser, None)
      end
  end.

End Transport.

(** *** [send_sms_pdu]

    What [send_sms_pdu] writes to the serial line, in order: echo off, PDU
    mode, the length command, then the PDU with Ctrl-Z. *)
Definition written (pdu_hex : pystr) (tpdu_len : Z) : list pystr :=
  [ lit "ATE0" ++ [13];
    lit "AT+CMGF=0" ++ [13];
    lit "AT+CMGS=" ++ str_of_int tpdu_len ++ [13];
    pdu_hex ++ [0x1A] ].

(** One pass of the [while] loop, as the clock and the serial line answer
    it.  The clock is read through the results of the loop's three tests, so
    that no arithmetic on times is modelled:
    - [before_deadline]: [(time.time() - start_time) < max_wait];
    - [waiting]: the decoded [read_all()] when [ser.in_waiting > 0], [None]
      when nothing waits;
    - [idle_expired]: [(time.time() - last_data_time) > idle_timeout];
    - [drained]: after a success indicator and the wait of 0.3 s, the decoded
      [read_all()] when [ser.in_waiting > 0]. *)
Record poll := mkPoll {
  before_deadline : bool;
  waiting : option pystr;
  idle_expired : bool;
  drained : option pystr
}.

(** [sum(1 for line in lines if line.strip() == 'OK')] over
    [full_response.split('\r\n')]. *)
Definition ok_count (full_response : pystr) : Z :=
  len (filter (fun line => str_eqb (strip line) (lit "OK"))
              (split full_response [13; 10])).

(** The chunk read after a success indicator, when there is one. *)
Definition with_drained (p : poll) (response_parts : list pystr)
    : list pystr :=
  match drained p with
  | Some final_chunk => response_parts ++ [final_chunk]
  | None => response_parts
  end.

(** The [while] loop: the state is [response_parts], [got_any_data] and
    [got_success]; the result is [response_parts] when the loop is left.  The
    list of polls is the run of the loop; when it is used up the loop is cut
    there. *)
Fixpoint read_loop (polls : list poll) (response_parts : list pystr)
    (got_any_data got_success : bool) : list pystr :=
  match polls with
  | [] => response_parts
  | p :: rest =>
      if negb (before_deadline p) then response_parts
      else
        match waiting p with
        | Some chunk =>
            let response_parts := response_parts ++ [chunk] in
            let got_any_data := true in
            let full_response := concat response_parts in
            if contains full_response (lit "+CMGS:") then
              with_drained p response_parts
            else if contains full_response (lit "OK") && negb got_success
            then
              if 1 <=? ok_count full_response
              then with_drained p response_parts
              else read_loop rest response_parts got_any_data got_success
            else if contains full_response (lit "ERROR")
                    || contains full_response (lit "+CMS ERROR:")
            then response_parts
            else read_loop rest response_parts got_any_data got_success
        | None =>
            if got_any_data && idle_expired p then response_parts
            else read_loop rest response_parts got_any_data got_success
        end
  end.

(** The chunks that a run of polls delivers, in order. *)
Definition delivered (polls : list poll) : list pystr :=
  flat_map (fun p => match waiting p with
                     | Some chunk => [chunk]
                     | None => []
                     end) polls.

(** The accumulated text after which the loop goes on reading: no [+CMGS:],
    and either an [OK] without a line that equals [OK], or neither [OK] nor
    an error token. *)
Definition keeps_reading (full_response : pystr) : Prop :=
  contains full_response (lit "+CMGS:") = false
  /\ ((contains full_response (lit "OK") = true
       /\ ok_count full_response < 1)
      \/ (contains full_response (lit "OK") = false
          /\ contains full_response (lit "ERROR") = false
          /\ contains full_response (lit "+CMS ERROR:") = false)).

(** The accumulated text on which the loop takes the send for done. *)
Definition success_seen (full_response : pystr) : Prop :=
  contains full_response (lit "+CMGS:") = true
  \/ (contains full_response (lit "OK") = true
      /\ 1 <= ok_count full_response).

(** The accumulated text on which the loop stops for an error: an error
    token in a text that has neither [+CMGS:] nor [OK]. *)
Definition error_seen (full_response : pystr) : Prop :=
  contains full_response (lit "+CMGS:") = false
  /\ contains full_response (lit "OK") = false
  /\ (contains full_response (lit "ERROR") = true
      \/ contains full_response (lit "+CMS ERROR:") = true).

(** Pass [p] of the loop, reached with [response_parts] read so far, goes on
    to the next pass: the deadline has not passed, and the chunk read leaves
    a text on which the loop keeps reading, or nothing waits and either no
    chunk has been read yet or the line has not been idle for too long. *)
Definition goes_on (response_parts : list pystr) (p : poll) : Prop :=
  before_deadline p = true
  /\ match waiting p with
     | Some chunk => keeps_reading (concat (response_parts ++ [chunk]))
     | None => response_parts = [] \/ idle_expired p = false
     end.

(** Pass [p], reached with [response_parts] read so far, leaves the loop
    with [result]: the deadline has passed; or the chunk read shows a
    success, and the chunk then drained is added; or it shows an error; or
    nothing waits and the line has been idle for too long after some
    chunk. *)
Definition leaves_with (response_parts : list pystr) (p : poll)
    (result : list pystr) : Prop :=
  (before_deadline p = false /\ result = response_parts)
  \/ (before_deadline p = true
      /\ match waiting p with
         | Some chunk =>
             (success_seen (concat (response_parts ++ [chunk]))
              /\ result = with_drained p (response_parts ++ [chunk]))
             \/ (error_seen (concat (response_parts ++ [chunk]))
                 /\ result = response_parts ++ [chunk])
         | None =>
             response_parts <> [] /\ idle_expired p = true
             /\ result = response_parts
         end).

(** The response that [send_sms_pdu] returns: [''.join(response_parts)]. *)
Definition send_sms_pdu_response (polls : list poll) : pystr :=
  concat (read_loop polls [] false false).

End Modem.

(** ** lib/database.py: outcome handling of [process_pending_sms] *)
Module Database.

Inductive status := pending | sent | failed.

Definition status_eqb (a b : status) : bool :=
  match a, b with
  | pending, pending | sent, sent | failed, failed => true
  | _, _ => false
  end.

(** A row of the [outbox] table; [None] is SQL [NULL]. *)
Record row := mkRow {
  id : Z;
  phone_number : pystr;
  recipient : pystr;
  message : pystr;
  row_status : status;
  attempts : Z;
  error_message : option pystr;
  created_at : Z;
  sent_at : option Z;
  updated_at : option Z
}.

(** [is_success] and [error_msg] as the response checks leave them.
    [modem_timeout] is an [int] ([MODEM_RESPONSE_TIMEOUT = 30] in
    [config.py]), printed in decimal in the time-out text. *)
Definition classify_response (resp : pystr) (modem_timeout : Z)
    : bool * option pystr :=
  let resp_clean := upper (strip resp) in
  let error_count := count resp_clean (lit "ERROR") in
  if contains resp_clean (lit "+CMGS:") && (error_count =? 0) then
    (true, None)
  else if (0 <? error_count) || contains resp_clean (lit "+CMS ERROR:") then
    (false, Some (prefix 255 (strip resp)))
  else if contains resp_clean (lit "OK") && (2 <? len resp_clean) then
    (true, None)
  else if len (strip resp) =? 0 then
    (false, Some (lit "No response from modem (timeout after "
                    ++ str_of_int modem_timeout ++ lit "s)"))
  else if 5 <? len (strip resp) then
    (true, None)
  else
    (false, Some (lit "Ambiguous modem response: " ++ prefix 50 (strip resp))).

(** What [send_sms_func] did: it returned a response, or raised an exception
    [e], kept as [str(e)]. *)
Inductive send_result :=
| Returned (resp : pystr)
| Raised (e : pystr).

(** The three [UPDATE outbox ... WHERE id=%s] statements. *)
Inductive sql_update :=
| SetSent
| SetFailed (new_attempts : Z) (error : pystr)
| SetRetry (new_attempts : Z) (error : pystr).

(** [error_msg or resp.strip()[:255] or "Unknown error"] *)
Definition final_error_of (error_msg : option pystr) (resp : pystr) : pystr :=
  match error_msg with
  | Some (c :: rest) => c :: rest
  | _ =>
      match prefix 255 (strip resp) with
      | c :: rest => c :: rest
      | [] => lit "Unknown error"
      end
  end.

Definition failure_update (attempts_left : Z) (error : pystr) : sql_update :=
  let new_attempts := attempts_left - 1 in
  if new_attempts <=? 0 then SetFailed new_attempts error
  else SetRetry new_attempts error.

(** The statement chosen for one message. *)
Definition outcome_update (attempts_left modem_timeout : Z)
    (res : send_result) : sql_update :=
  match res with
  | Returned resp =>
      let '(is_success, error_msg) := classify_response resp modem_timeout in
      if is_success then SetSent
      else failure_update attempts_left (final_error_of error_msg resp)
  | Raised e => failure_update attempts_left (prefix 255 e)
  end.



(** The effect of a statement on a row it matches; [now] is [NOW()]. *)
Definition apply_update (now : Z) (u : sql_update) (r : row) : row :=
  match u with
  | SetSent =>
      mkRow (id r) (phone_number r) (recipient r) (message r)
            sent (attempts r) (error_message r) (created_at r)
            (Some now) (Some now)
  | SetFailed new_attempts error =>
      mkRow (id r) (phone_number r) (recipient r) (message r)
            failed new_attempts (Some error) (created_at r)
            (sent_at r) (Some now)
  | SetRetry new_attempts error =>
      mkRow (id r) (phone_number r) (recipient r) (message r)
            (row_status r) new_attempts (Some error) (created_at r)
            (sent_at r) (Some now)
  end.

(** [cursor.execute(update, (..., msg_id))] on the table. *)
Definition execute (now : Z) (u : sql_update) (msg_id : Z)
    (outbox : list row) : list row :=
  map (fun r => if id r =? msg_id then apply_update now u r else r) outbox.

(** [WHERE status='pending' AND attempts > 0] *)
Definition is_selectable (r : row) : bool :=
  status_eqb (row_status r) pending && (0 <? attempts r).

(** [ORDER BY id] *)
Fixpoint insert_by_id (r : row) (l : list row) : list row :=
  match l with
  | [] => [r]
  | x :: rest =>
      if id r <=? id x then r :: x :: rest else x :: insert_by_id r rest
  end.

Definition order_by_id (l : list row) : list row :=
  fold_right insert_by_id [] l.

(** The [SELECT] of a poll cycle, [LIMIT 5]. *)
Definition select_pending (outbox : list row) : list row :=
  firstn 5 (order_by_id (filter is_selectable outbox)).

Section Cycle.

(** The serial line, the modem and the wall clock. *)
Variable world : Type.

(** [send_sms_func(ser, phone, text, modem_timeout)] *)
Variable send_sms_func : world -> pystr -> pystr -> Z -> world * send_result.

(** [NOW()] *)
Variable db_now : world -> Z.

(** The body of the loop over the selected messages: send, choose the
    statement from the outcome, execute and commit it. *)
Definition process_message (modem_timeout : Z) (w : world)
    (outbox : list row) (msg : row) : world * list row :=
  let msg_id := id msg in
  let attempts_left := attempts msg in
  let '(w, res) :=
    send_sms_func w (phone_number msg) (message msg) modem_timeout in
  (w, execute (db_now w) (outcome_update attempts_left modem_timeout res)
              msg_id outbox).

Fixpoint process_messages (modem_timeout : Z) (w : world)
    (outbox : list row) (messages : list row) : world * list row :=
  match messages with
  | [] => (w, outbox)
  | msg :: rest =>
      let '(w, outbox) := process_message modem_timeout w outbox msg in
      process_messages modem_timeout w outbox rest
  end.

Definition process_pending_sms (modem_timeout : Z) (w : world)
    (outbox : list row) : world * list row :=
  process_messages modem_timeout w outbox (select_pending outbox).

End Cycle.

(** The transition of one selected row: the statement chosen from the row's
    own [attempts] and the outcome, applied to that row. *)
Definition transition (now modem_timeout : Z) (res : send_result) (r : row)
    : row :=
  apply_update now (outcome_update (attempts r) modem_timeout res) r.

(** *** [process_pending_sms_v2]

    What [modem.send_sms(phone, text)] did: it returned
    [(success, result_msg)], or raised an exception [e], kept as [str(e)]. *)
Inductive modem_result :=
| Reported (success : bool) (result_msg : pystr)
| Failed (e : pystr).

(** The statement that [process_pending_sms_v2] chooses for one message. *)
Definition outcome_update_v2 (attempts_left : Z) (res : modem_result)
    : sql_update :=
  match res with
  | Reported success result_msg =>
      if success then SetSent
      else failure_update attempts_left (prefix 255 result_msg)
  | Failed e => failure_update attempts_left (prefix 255 e)
  end.

Definition transition_v2 (now : Z) (res : modem_result) (r : row) : row :=
  apply_update now (outcome_update_v2 (attempts r) res) r.

(** *** Poll cycles

    One row through successive poll cycles: in every cycle the row is sent
    when the [SELECT] would return it, and left alone otherwise.  [now] gives
    the time of the cycle's update. *)
Fixpoint cycles (modem_timeout : Z) (now : nat -> Z)
    (outcomes : list send_result) (k : nat) (r : row) : row :=
  match outcomes with
  | [] => r
  | res :: rest =>
      cycles modem_timeout now rest (S k)
        (if is_selectable r then transition (now k) modem_timeout res r
         else r)
  end.

End Database.

(** ** lib/modem_gsmlib.py *)
Module ModemGsmlib.

(** What [self.modem.sendSms(number, text, ...)] of the modem library did:
    it returned, or raised an exception, caught by the first handler that
    matches.  The texts are [str(e)], and for a [CmsError] the printed
    [e.code] and [e.message]. *)
Inductive library_result :=
| Sent
| TimeoutException (e : pystr)
| CmsError (code message : pystr)
| CommandError (e : pystr)
| OtherException (e : pystr).

(** [ModemSMS.send_sms]; [connected] says that [self.modem] is set. *)
Definition ModemSMS_send_sms (connected : bool) (res : library_result)
    : bool * pystr :=
  if negb connected then (false, lit "Modem not connected")
  else
    match res with
    | Sent => (true, lit "SMS sent successfully")
    | TimeoutException e => (false, lit "Timeout sending SMS: " ++ e)
    | CmsError code message =>
        (false, lit "CMS Error " ++ code ++ lit ": " ++ message)
    | CommandError e => (false, lit "Command Error: " ++ e)
    | OtherException e => (false, lit "Unexpected error: " ++ e)
    end.

(** The module-level [send_sms], the wrapper with the signature of
    [lib/modem.py]'s [send_sms]. *)
Definition send_sms (connected : bool) (res : library_result) : pystr :=
  let '(success, message) := ModemSMS_send_sms connected res in
  if success then lit "+CMGS: OK" else lit "ERROR: " ++ message.

End ModemGsmlib.

(** ** The specification's wording

    Definitions that follow the words of the specification, for comparison
    with the functions embedded from the sources above. *)
Module Spec.

(** "Ceiling division: (n + d - 1) / d". *)
Definition ceil_div (n d : Z) : Z := (n + d - 1) / d.

(** "A fixed extended/escape set ([^{}\[~]|€] and form-feed)". *)
Definition extended_set : pystr :=
  [ 94; 123; 125; 92; 91; 126; 93; 124; 8364; 12 ].

(** "If every character matches, encoding = GSM7". *)
Definition gsm7_compatible (text : pystr) : bool :=
  forallb (fun c => char_in c Encoding.gsm7_basic || char_in c extended_set)
          text.

(** [s.split(sep)] for a non-empty [sep], used for the lines of a modem
    response.  [skip] counts the characters of a separator still to pass,
    [line] is the line read so far. *)
Fixpoint split_from (s sep : pystr) (skip : nat) (line : pystr)
    : list pystr :=
  match s with
  | [] => [line]
  | c :: rest =>
      match skip with
      | S k => split_from rest sep k line
      | O =>
          if startswith s sep
          then line :: split_from rest sep (length sep - 1) []
          else split_from rest sep 0 (line ++ [c])
      end
  end.

Definition lines (resp : pystr) : list pystr :=
  split_from resp [13; 10] 0 [].

(** "At least one full line equal to [OK]". *)
Definition has_ok_line (resp : pystr) : bool :=
  existsb (fun line => startswith (strip line) (lit "OK")
                       && (len (strip line) =? 2))
          (lines resp).

(** The decision rule of the outcome classifier in the specification's words:
    [+CMGS:] without [ERROR] is success; an error token is failure; [OK]
    counts only with a full line equal to [OK]; otherwise more than five
    characters is success and anything shorter is failure. *)
Definition claimed_success (resp : pystr) : bool :=
  if contains resp (lit "+CMGS:") && negb (contains resp (lit "ERROR"))
  then true
  else if contains resp (lit "ERROR") || contains resp (lit "+CMS ERROR:")
  then false
  else if contains resp (lit "OK") && has_ok_line resp then true
  else 5 <? len resp.

(** "Success => status=sent, set sent timestamp, clear error", attempts
    unchanged. *)
Definition claimed_sent_row (now : Z) (r : Database.row) : Database.row :=
  Database.mkRow (Database.id r) (Database.phone_number r)
    (Database.recipient r) (Database.message r)
    Database.sent (Database.attempts r) None (Database.created_at r)
    (Some now) (Some now).

(** A row that has failed once before: one attempt used, the modem's error
    text stored. *)
Definition retried_row : Database.row :=
  Database.mkRow 1 (lit "+1234567") (lit "Ann") (lit "hello")
    Database.pending 2 (Some (lit "+CMS ERROR: 500")) 0 None (Some 50).

(** The semi-octets of a digit string: "if the remaining digit count is odd,
    append a filler nibble F"; "digit pair ab -> byte value ba". *)
Fixpoint semi_octets (digits : pystr) : list Z :=
  match digits with
  | [] => []
  | [a] => [16 * 15 + (a - 48)]
  | a :: b :: rest => 16 * (b - 48) + (a - 48) :: semi_octets rest
  end.

Definition ascii_digit (c : Z) : bool := (48 <=? c) && (c <=? 57).

(** "Strip every character except digits and a single leading +.  Leading +
    => type-of-number 0x91 and is removed before encoding; absence =>
    0x81." *)
Definition phone_codec (phone : pystr) : Z * list Z :=
  let ton := if startswith phone [Pdu.plus_sign] then 0x91 else 0x81 in
  (ton, semi_octets (filter ascii_digit phone)).

(** "padding_bits = 7 - ((header_octets) * 8) mod 7 (0 when already
    aligned)", the header being the UDHL octet and the five octets of the
    concatenation header. *)
Definition header_octets : Z := 6.

Definition padding_bits : Z :=
  let p := 7 - (header_octets * 8) mod 7 in
  if p =? 7 then 0 else p.

(** Membership in "the basic+extended alphabet" of the encoder. *)
Definition in_alphabet (text : pystr) : bool :=
  forallb (fun c => char_in c Pdu.gsm7_basic
                    || match dict_get c Pdu.gsm7_extended with
                       | Some _ => true
                       | None => false
                       end)
          text.

(** A text of weighted length 306 whose 153rd and 154th septets are the two
    septets of one [{]: 152 letters [a], a [{], and 152 letters [a]. *)
Definition boundary_text : pystr := repeat 97 152 ++ [123] ++ repeat 97 152.

(** "Weighted length: each extended-set character weighted 2, every other
    character 1", over the extended set of the specification. *)
Definition weighted_length (text : pystr) : Z :=
  fold_right (fun c w => (if char_in c extended_set then 2 else 1) + w)
             0 text.

(** "If weighted length <= 160 -> 1 part, budget 160.  Else parts =
    ceil(weighted_length / 153), budget 153 per part"; "If length <= 70 ->
    1 part, budget 70.  Else parts = ceil(length / 67), budget 67". *)
Definition sms_parts (text : pystr) : Z * Z :=
  if gsm7_compatible text then
    let w := weighted_length text in
    if w <=? 160 then (1, 160) else (ceil_div w 153, 153)
  else
    let n := len text in
    if n <=? 70 then (1, 70) else (ceil_div n 67, 67).


End Spec.

(** * Properties *)

(** ** Lists, slices and ranges *)
Section ListFacts.

Context {A : Type}.

Lemma len_nonneg (l : list A) : 0 <= len l.
Proof. unfold len. lia. Qed.

Lemma len_app (l1 l2 : list A) : len (l1 ++ l2) = len l1 + len l2.
Proof. unfold len. rewrite length_app. lia. Qed.


(** A slice between two in-order natural bounds is a [firstn] of a [skipn]. *)
Lemma slice_nat (l : list A) (i j : nat) :
  slice l (Z.of_nat i) (Z.of_nat i + Z.of_nat j) = firstn j (skipn i l).
Proof.
  unfold slice, clamp, len.
  destruct (Z.of_nat i <? 0) eqn:Hi; [apply Z.ltb_lt in Hi; lia|].
  destruct (Z.of_nat i + Z.of_nat j <? 0) eqn:Hj; [apply Z.ltb_lt in Hj; lia|].
  set (n := Z.of_nat (length l)).
  destruct (Nat.le_gt_cases (length l) i) as [Hout | Hin].
  - replace (Z.min (Z.of_nat i) n) with n by lia.
    replace (Z.min (Z.of_nat i + Z.of_nat j) n) with n by lia.
    subst n. rewrite Nat2Z.id.
    rewrite !skipn_all2 by lia. now rewrite !firstn_nil.
  - replace (Z.min (Z.of_nat i) n) with (Z.of_nat i) by lia.
    rewrite Nat2Z.id.
    destruct (Nat.le_gt_cases (i + j) (length l)) as [Hfit | Hover].
    + replace (Z.min (Z.of_nat i + Z.of_nat j) n)
        with (Z.of_nat i + Z.of_nat j) by lia.
      f_equal. lia.
    + replace (Z.min (Z.of_nat i + Z.of_nat j) n) with n by lia.
      rewrite !firstn_all2; trivial; rewrite length_skipn; lia.
Qed.

Lemma firstn_plus (a b : nat) : forall l : list A,
  firstn (a + b) l = firstn a l ++ firstn b (skipn a l).
Proof.
  induction a as [| a IH]; intros l; simpl; trivial.
  destruct l as [| x l]; simpl.
  - now rewrite firstn_nil.
  - now rewrite IH.
Qed.

(** Consecutive chunks of width [c] add up to a prefix. *)
Lemma concat_chunks (l : list A) (c m : nat) :
  concat (map (fun k => firstn c (skipn (k * c) l)) (seq 0 m))
  = firstn (m * c) l.
Proof.
  induction m as [| m IH].
  - reflexivity.
  - rewrite seq_S, map_app, concat_app, IH. simpl.
    rewrite app_nil_r, <- firstn_plus. f_equal. lia.
Qed.

End ListFacts.

(** ** lib/encoding.py *)

Lemma is_gsm7_compatible_forallb (text : pystr) :
  Encoding.is_gsm7_compatible text
  = forallb (fun c => char_in c Encoding.gsm7_basic
                      || char_in c Encoding.gsm7_extended) text.
Proof.
  induction text as [| c rest IH]; trivial.
  cbn [Encoding.is_gsm7_compatible forallb]. rewrite IH.
  destruct (char_in c Encoding.gsm7_basic),
           (char_in c Encoding.gsm7_extended); reflexivity.
Qed.

Lemma char_in_In (c : Z) (s : pystr) : char_in c s = true <-> In c s.
Proof.
  unfold char_in. rewrite existsb_exists. split.
  - intros (x & Hx & Heq). apply Z.eqb_eq in Heq. now subst.
  - intros H. exists c. split; trivial. apply Z.eqb_refl.
Qed.

(** The source's test, read as a statement about every character. *)
Lemma is_gsm7_compatible_iff (text : pystr) :
  Encoding.is_gsm7_compatible text = true
  <-> Forall (fun c => In c Encoding.gsm7_basic
                       \/ In c Encoding.gsm7_extended) text.
Proof.
  rewrite is_gsm7_compatible_forallb, forallb_forall, Forall_forall.
  split; intros H c Hc; specialize (H c Hc).
  - apply orb_true_iff in H. now rewrite <- !char_in_In.
  - apply orb_true_iff. now rewrite !char_in_In.
Qed.

(** The loop keeps the text: what is closed, what is open and what is still
    to read make up the same string, and no closed part is empty. *)
Lemma split_gsm7_loop_inv (chars_per_part : Z) (Hcpp : 2 <= chars_per_part) :
  forall text parts cur curlen parts' cur',
    (cur = [] -> curlen = 0) ->
    Forall nonempty parts ->
    Encoding.split_gsm7_loop text chars_per_part parts cur curlen
      = (parts', cur') ->
    concat parts' ++ cur' = concat parts ++ cur ++ text
    /\ Forall nonempty parts'.
Proof.
  induction text as [| char rest IH]; intros parts cur curlen parts' cur'
    Hcur Hparts Hloop; cbn [Encoding.split_gsm7_loop] in Hloop.
  - inversion Hloop; subst. now rewrite app_nil_r.
  - set (char_length :=
           if char_in char Encoding.gsm7_extended then 2 else 1) in *.
    assert (Hcl : 1 <= char_length <= 2)
      by (subst char_length;
          destruct (char_in char Encoding.gsm7_extended); lia).
    destruct (curlen + char_length <=? chars_per_part) eqn:Hfit.
    + apply IH in Hloop; trivial.
      * destruct Hloop as [Heq Hne]. split; trivial.
        rewrite Heq, <- !app_assoc. reflexivity.
      * intros Habs. now destruct cur.
    + apply Z.leb_gt in Hfit.
      assert (Hne : nonempty cur).
      { intros ->. specialize (Hcur eq_refl). lia. }
      apply IH in Hloop.
      * destruct Hloop as [Heq Hall]. split; trivial.
        rewrite Heq, concat_app. simpl.
        rewrite app_nil_r, <- !app_assoc. reflexivity.
      * discriminate.
      * apply Forall_app. split; trivial. now constructor.
Qed.

Lemma split_message_gsm7 (text : pystr) (chars_per_part : Z) :
  2 <= chars_per_part ->
  Encoding.is_gsm7_compatible text = true ->
  exists parts,
    Encoding.split_message text chars_per_part = Some parts
    /\ concat parts = text
    /\ Forall nonempty parts.
Proof.
  intros Hcpp Hgsm. unfold Encoding.split_message. rewrite Hgsm.
  destruct (Encoding.split_gsm7_loop text chars_per_part [] [] 0)
    as [parts cur] eqn:Hloop.
  apply (split_gsm7_loop_inv Hcpp) in Hloop; trivial.
  destruct Hloop as [Heq Hne]. simpl in Heq.
  destruct cur as [| c cur].
  - exists parts. rewrite app_nil_r in Heq. auto.
  - exists (parts ++ [c :: cur]). split; trivial. split.
    + rewrite concat_app. simpl. now rewrite app_nil_r.
    + apply Forall_app. split; trivial. constructor; [discriminate | constructor].
Qed.

(** The number of chunks that [range(0, len(text), step)] yields. *)
Lemma range_chunks (n step : Z) :
  0 < step ->
  range 0 n step
  = Some (map (fun k => Z.of_nat k * step)
              (seq 0 (Z.to_nat ((n + step - 1) / step)))).
Proof.
  intros Hstep. unfold range.
  destruct (step =? 0) eqn:H0; [apply Z.eqb_eq in H0; lia|].
  destruct (0 <? step) eqn:Hpos; [|apply Z.ltb_ge in Hpos; lia].
  rewrite Z.sub_0_r. reflexivity.
Qed.

Lemma split_message_ucs2 (text : pystr) (chars_per_part : Z) :
  1 <= chars_per_part ->
  Encoding.is_gsm7_compatible text = false ->
  exists parts,
    Encoding.split_message text chars_per_part = Some parts
    /\ concat parts = text
    /\ Forall nonempty parts
    /\ len parts = (len text + chars_per_part - 1) / chars_per_part.
Proof.
  intros Hcpp Hgsm. unfold Encoding.split_message. rewrite Hgsm.
  rewrite range_chunks by lia.
  set (c := Z.to_nat chars_per_part).
  set (m := Z.to_nat ((len text + chars_per_part - 1) / chars_per_part)).
  assert (Hc : chars_per_part = Z.of_nat c) by (subst c; lia).
  assert (Hm : (len text + chars_per_part - 1) / chars_per_part = Z.of_nat m).
  { subst m. rewrite Z2Nat.id; trivial.
    apply Z.div_pos; [pose proof (len_nonneg text)|]; lia. }
  assert (Hmap :
    map (fun i => slice text i (i + chars_per_part))
        (map (fun k => Z.of_nat k * chars_per_part) (seq 0 m))
    = map (fun k => firstn c (skipn (k * c) text)) (seq 0 m)).
  { rewrite map_map. apply map_ext. intros k.
    rewrite Hc, <- Nat2Z.inj_mul. apply slice_nat. }
  eexists. split; [reflexivity|]. rewrite Hmap.
  assert (Hbound : Z.of_nat m * Z.of_nat c - Z.of_nat c < len text
                   <= Z.of_nat m * Z.of_nat c).
  { rewrite <- Hm, <- Hc.
    pose proof (Z.div_mod (len text + chars_per_part - 1) chars_per_part).
    pose proof (Z.mod_pos_bound (len text + chars_per_part - 1)
                  chars_per_part).
    nia. }
  unfold len in Hbound. split; [|split].
  - rewrite concat_chunks. apply firstn_all2. nia.
  - apply Forall_forall. intros p Hp.
    apply in_map_iff in Hp. destruct Hp as (k & <- & Hk).
    apply in_seq in Hk.
    assert (Hlt : (k * c < length text)%nat) by nia.
    intros Hnil. apply (f_equal (@length Z)) in Hnil.
    rewrite length_firstn, length_skipn in Hnil. simpl in Hnil. lia.
  - rewrite Hm. unfold len. now rewrite length_map, length_seq.
Qed.

Ltac by_computation :=
  vm_compute;
  first [ reflexivity | discriminate | (intro; discriminate) | lia ].

Lemma concat_nonempty_nil (parts : list pystr) :
  Forall nonempty parts -> concat parts = [] -> parts = [].
Proof.
  intros Hne Hnil. destruct parts as [| p parts]; trivial.
  inversion Hne as [| ? ? Hp _]; subst.
  destruct p; [now elim Hp | discriminate].
Qed.

(** C10.  For every text and every [chars_per_part >= 2], [split_message]
    returns a list of parts whose concatenation, in order, is the text; every
    part is non-empty; the empty text gives the empty list. *)
Theorem split_message_partition (text : pystr) (chars_per_part : Z) :
  2 <= chars_per_part ->
  exists parts,
    Encoding.split_message text chars_per_part = Some parts
    /\ concat parts = text
    /\ Forall nonempty parts
    /\ (text = [] -> parts = []).
Proof.
  intros Hcpp.
  assert (H : exists parts,
             Encoding.split_message text chars_per_part = Some parts
             /\ concat parts = text /\ Forall nonempty parts).
  { destruct (Encoding.is_gsm7_compatible text) eqn:Hgsm.
    - now apply split_message_gsm7.
    - destruct (@split_message_ucs2 text chars_per_part) as (ps & ? & ? & ? & _);
        [lia | trivial |].
      exists ps. auto. }
  destruct H as (parts & Hsplit & Hcat & Hne).
  exists parts. repeat split; trivial.
  intros ->. now apply concat_nonempty_nil.
Qed.

Lemma split_message_partition_witness :
  exists parts,
    Encoding.split_message (lit "hello {world}") 4 = Some parts
    /\ concat parts = lit "hello {world}"
    /\ Forall nonempty parts
    /\ (lit "hello {world}" = [] -> parts = []).
Proof.
  apply (@split_message_partition (lit "hello {world}") 4). lia.
Defined.

(** Over the classifier and the weights of the source: for a text that
    [is_gsm7_compatible] accepts, of weighted length [w] (the characters of
    the source's [gsm7_extended] count 2, all others 1),
    [calculate_sms_parts] returns [(1, 160)] when [w <= 160] and
    [(ceil (w / 153), 153)] otherwise; for any other text of [n] characters
    it returns [(1, 70)] when [n <= 70] and [(ceil (n / 67), 67)] otherwise.
    The ceiling is [(n + d - 1) / d]. *)
Theorem calculate_sms_parts_spec (text : pystr) :
  (Encoding.is_gsm7_compatible text = true ->
   let w := Encoding.weighted_count text in
   (w <= 160 ->
    Encoding.calculate_sms_parts text = (1, 160, Encoding.GSM7))
   /\ (160 < w ->
       Encoding.calculate_sms_parts text
         = (Spec.ceil_div w 153, 153, Encoding.GSM7)
       /\ 153 * (Spec.ceil_div w 153 - 1) < w <= 153 * Spec.ceil_div w 153))
  /\ (Encoding.is_gsm7_compatible text = false ->
      let n := len text in
      (n <= 70 ->
       Encoding.calculate_sms_parts text = (1, 70, Encoding.UCS2))
      /\ (70 < n ->
          Encoding.calculate_sms_parts text
            = (Spec.ceil_div n 67, 67, Encoding.UCS2)
          /\ 67 * (Spec.ceil_div n 67 - 1) < n <= 67 * Spec.ceil_div n 67)).
Proof.
  unfold Encoding.calculate_sms_parts, Spec.ceil_div.
  split; intros Hgsm; rewrite Hgsm; cbv zeta; split; intros Hw.
  - apply Z.leb_le in Hw. now rewrite Hw.
  - assert (Hgt := Hw). apply Z.leb_gt in Hgt. rewrite Hgt.
    replace (Encoding.weighted_count text + 153 - 1)
      with (Encoding.weighted_count text + 152) by lia.
    split; [reflexivity|].
    pose proof (Z.div_mod (Encoding.weighted_count text + 152) 153).
    pose proof (Z.mod_pos_bound (Encoding.weighted_count text + 152) 153).
    lia.
  - apply Z.leb_le in Hw. now rewrite Hw.
  - assert (Hgt := Hw). apply Z.leb_gt in Hgt. rewrite Hgt.
    replace (len text + 67 - 1) with (len text + 66) by lia.
    split; [reflexivity|].
    pose proof (Z.div_mod (len text + 66) 67).
    pose proof (Z.mod_pos_bound (len text + 66) 67).
    lia.
Qed.

Lemma calculate_sms_parts_spec_witness :
  Encoding.calculate_sms_parts (lit "hello {world}")
    = (1, 160, Encoding.GSM7)
  /\ Encoding.calculate_sms_parts (repeat 123 81)
     = (Spec.ceil_div 162 153, 153, Encoding.GSM7)
  /\ Encoding.calculate_sms_parts (repeat 8365 70)
     = (1, 70, Encoding.UCS2)
  /\ Encoding.calculate_sms_parts (repeat 8365 135)
     = (Spec.ceil_div 135 67, 67, Encoding.UCS2).
Proof.
  split; [| split; [| split]].
  - apply (calculate_sms_parts_spec (lit "hello {world}")); by_computation.
  - apply (calculate_sms_parts_spec (repeat 123 81)); by_computation.
  - apply (calculate_sms_parts_spec (repeat 8365 70)); by_computation.
  - apply (calculate_sms_parts_spec (repeat 8365 135)); by_computation.
Defined.

(** ** lib/modem.py: the parts of one message *)

Lemma enumerate_fst {A} (l : list A) : forall start,
  map fst (enumerate start l)
  = map (fun k => start + Z.of_nat k) (seq 0 (length l)).
Proof.
  induction l as [| x l IH]; intros start; trivial.
  cbn [enumerate map length seq fst]. rewrite <- seq_shift, map_map, IH.
  f_equal; [lia|].
  apply map_ext. intros k. lia.
Qed.

Lemma enumerate_snd {A} (l : list A) : forall start,
  map snd (enumerate start l) = l.
Proof.
  induction l as [| x l IH]; intros start; trivial.
  cbn [enumerate map snd]. now rewrite IH.
Qed.

(** X19.  What the multipart loop does hold to: the parts carry one
    reference number and one [total_parts], and their indices count up from
    1, as many as [split_message] returned parts. *)
Lemma create_pdu_args_multipart (text : pystr) (ref_num : Z)
    (num_parts chars_per_part : Z) (enc : Encoding.encoding)
    (parts : list pystr) :
  Encoding.calculate_sms_parts text = (num_parts, chars_per_part, enc) ->
  num_parts <> 1 ->
  Encoding.split_message text chars_per_part = Some parts ->
  exists args,
    Modem.create_pdu_args text ref_num = Some args
    /\ map (fun '(part, _, _, _) => part) args = parts
    /\ map (fun '(_, r, _, _) => r) args = map (fun _ => ref_num) parts
    /\ map (fun '(_, _, i, _) => i) args
       = map (fun k => 1 + Z.of_nat k) (seq 0 (length parts))
    /\ map (fun '(_, _, _, n) => n) args = map (fun _ => num_parts) parts.
Proof.
  intros Hcalc Hmulti Hsplit. unfold Modem.create_pdu_args.
  rewrite Hcalc, Hsplit.
  destruct (num_parts =? 1) eqn:H1; [apply Z.eqb_eq in H1; contradiction|].
  eexists. split; [reflexivity|].
  split; [| split; [| split]].
  - rewrite map_map. rewrite <- (enumerate_snd parts 1) at 2.
    apply map_ext. now intros [i part].
  - transitivity (map (fun _ : pystr => ref_num)
                      (map snd (enumerate 1 parts)));
      [| now rewrite enumerate_snd].
    rewrite !map_map. apply map_ext. now intros [i part].
  - rewrite map_map, <- (enumerate_fst parts 1).
    apply map_ext. now intros [i part].
  - transitivity (map (fun _ : pystr => num_parts)
                      (map snd (enumerate 1 parts)));
      [| now rewrite enumerate_snd].
    rewrite !map_map. apply map_ext. now intros [i part].
Qed.

(** X6.  For a text that is not GSM7-compatible the fixed-width slices
    number exactly [num_parts]. *)
Lemma ucs2_parts_count (text : pystr) :
  Encoding.is_gsm7_compatible text = false ->
  70 < len text ->
  exists parts,
    Encoding.split_message text 67 = Some parts
    /\ len parts = fst (fst (Encoding.calculate_sms_parts text)).
Proof.
  intros Hgsm Hlen.
  destruct (@split_message_ucs2 text 67) as (parts & Hs & _ & _ & Hn);
    [lia | trivial |].
  exists parts. split; trivial.
  unfold Encoding.calculate_sms_parts. rewrite Hgsm.
  apply Z.leb_gt in Hlen. rewrite Hlen. cbn [fst]. rewrite Hn.
  f_equal. lia.
Qed.

(** C3.  On the text of 152 letters, one [{] and 152 more letters
    [calculate_sms_parts] announces 2 parts of budget 153, [split_message]
    returns 3 parts with that budget, and the send loop builds the headers of
    parts 1, 2 and 3, each declaring [total_parts = 2]: the third index lies
    outside [1..total_parts].  (The reference number is shared.) *)
Theorem multipart_count_mismatch :
  Encoding.calculate_sms_parts Spec.boundary_text = (2, 153, Encoding.GSM7)
  /\ option_map (map len) (Encoding.split_message Spec.boundary_text 153)
     = Some [152; 152; 1]
  /\ option_map (map (fun '(_, r, i, n) => (r, i, n)))
                (Modem.create_pdu_args Spec.boundary_text 9)
     = Some [(9, 1, 2); (9, 2, 2); (9, 3, 2)].
Proof. repeat split; vm_compute; reflexivity. Qed.

(** ** lib/encoding.py against lib/pdu.py: the extended set *)

(** C7.  The form feed is a key of the encoder's extension table, and the
    specification counts it as GSM7, yet [is_gsm7_compatible] rejects a text
    made of a form feed, and [create_pdu] then sends it as UCS2 (data coding
    scheme [0x08]). *)
Theorem form_feed_not_gsm7_compatible :
  Encoding.is_gsm7_compatible [12] = false
  /\ Spec.gsm7_compatible [12] = true
  /\ dict_get 12 Pdu.gsm7_extended = Some 0x0A
  /\ Pdu.create_pdu_octets (lit "1") [12] 0 1 1
     = Some [0x00; 0x01; 0x00; 1; 0x81; 0xF1; 0x00; 0x08; 2; 0x00; 0x0C].
Proof. repeat split; vm_compute; reflexivity. Qed.

(** Apart from the form feed the two readings agree. *)
Lemma is_gsm7_compatible_without_form_feed (text : pystr) :
  ~ In 12 text ->
  Encoding.is_gsm7_compatible text = Spec.gsm7_compatible text.
Proof.
  rewrite is_gsm7_compatible_forallb. unfold Spec.gsm7_compatible.
  induction text as [| c rest IH]; intros Hff; trivial.
  cbn [forallb]. rewrite IH by (intros Hin; apply Hff; now right).
  f_equal. f_equal.
  assert (Hne : (c =? 12) = false)
    by (apply Z.eqb_neq; intros ->; apply Hff; now left).
  unfold char_in, Encoding.gsm7_extended, Spec.extended_set.
  cbn [existsb]. rewrite Hne. now rewrite !orb_false_r.
Qed.

(** The weights agree as well. *)
Lemma weighted_length_without_form_feed (text : pystr) :
  ~ In 12 text ->
  Spec.weighted_length text = Encoding.weighted_count text.
Proof.
  unfold Spec.weighted_length.
  induction text as [| c rest IH]; intros Hff; trivial.
  cbn [fold_right Encoding.weighted_count].
  rewrite IH by (intros Hin; apply Hff; now right).
  f_equal.
  assert (Hne : (c =? 12) = false)
    by (apply Z.eqb_neq; intros ->; apply Hff; now left).
  unfold char_in, Encoding.gsm7_extended, Spec.extended_set.
  cbn [existsb]. rewrite Hne. now rewrite !orb_false_r.
Qed.

(** On a text without form feed [calculate_sms_parts] returns the part count
    and the budget of the specification, for both encodings. *)
Lemma calculate_sms_parts_without_form_feed (text : pystr) :
  ~ In 12 text ->
  fst (Encoding.calculate_sms_parts text) = Spec.sms_parts text
  /\ snd (Encoding.calculate_sms_parts text)
     = if Spec.gsm7_compatible text then Encoding.GSM7 else Encoding.UCS2.
Proof.
  intros Hff. unfold Encoding.calculate_sms_parts, Spec.sms_parts.
  rewrite <- (is_gsm7_compatible_without_form_feed text Hff).
  rewrite (weighted_length_without_form_feed text Hff).
  unfold Spec.ceil_div. cbv zeta.
  destruct (Encoding.is_gsm7_compatible text).
  - destruct (Encoding.weighted_count text <=? 160); cbn [fst snd];
      split; trivial.
    now replace (Encoding.weighted_count text + 153 - 1)
      with (Encoding.weighted_count text + 152) by lia.
  - destruct (len text <=? 70); cbn [fst snd]; split; trivial.
    now replace (len text + 67 - 1) with (len text + 66) by lia.
Qed.

(** C8.  A text of 71 form feeds is GSM7-compatible by the extended set of
    the specification, with weighted length 142: the stated result is one
    part with budget 160.  [calculate_sms_parts] takes the text for UCS2,
    because the [gsm7_extended] of [lib/encoding.py] has no form feed, and
    returns 2 parts with budget 67. *)
Theorem calculate_sms_parts_form_feed :
  Spec.gsm7_compatible (repeat 12 71) = true
  /\ Spec.weighted_length (repeat 12 71) = 142
  /\ Spec.sms_parts (repeat 12 71) = (1, 160)
  /\ Encoding.calculate_sms_parts (repeat 12 71) = (2, 67, Encoding.UCS2).
Proof. repeat split; vm_compute; reflexivity. Qed.

(** ** lib/pdu.py: septet packing *)

(** C1.  The packing is not invertible.  Two texts over the basic alphabet
    that differ in their eighth character have the same encoding (the loop
    skips every eighth septet); a text and the same text followed by [@] have
    the same encoding; and the basic table of the sources has no entry at
    position [0x1B], so that [AE ligature, )] and [{] give the same
    septets. *)
Theorem encode_gsm7_collisions :
  Spec.in_alphabet (lit "AAAAAAAA") = true
  /\ Spec.in_alphabet (lit "AAAAAAAB") = true
  /\ Pdu.encode_gsm7 (lit "AAAAAAAA") = [64; 128; 1; 2; 4; 8; 16]
  /\ Pdu.encode_gsm7 (lit "AAAAAAAB") = [64; 128; 1; 2; 4; 8; 16]
  /\ Pdu.encode_gsm7 (lit "AAA") = Pdu.encode_gsm7 (lit "AAA@")
  /\ Pdu.to_septets [198; 41] = Pdu.to_septets [123].
Proof. repeat split; vm_compute; reflexivity. Qed.

(** Hence no unpacking function inverts [encode_gsm7] on the alphabet. *)
Lemma encode_gsm7_no_inverse (unpack : list Z -> pystr) :
  ~ (forall text, Spec.in_alphabet text = true ->
                  unpack (Pdu.encode_gsm7 text) = text).
Proof.
  intros Hinv.
  assert (Ha := Hinv (lit "AAAAAAAA") eq_refl).
  assert (Hb := Hinv (lit "AAAAAAAB") eq_refl).
  assert (Heq : Pdu.encode_gsm7 (lit "AAAAAAAA")
                = Pdu.encode_gsm7 (lit "AAAAAAAB")) by (vm_compute; reflexivity).
  rewrite Heq, Hb in Ha. vm_compute in Ha. discriminate Ha.
Qed.

(** ** lib/pdu.py: the user-data header of a multipart GSM7 part *)

(** Every multipart GSM7 part is built with [padding_bits = 0]: the
    User-Data-Length is [7 + len(text)] and the payload is [encode_gsm7]'s,
    packed from shift 0. *)
Lemma create_pdu_octets_multipart_gsm7 (phone text : pystr)
    (ref_num part_num total_parts ton : Z) (phone_encoded : list Z) :
  1 < total_parts ->
  Encoding.is_gsm7_compatible text = true ->
  Pdu.encode_phone_number phone = Some (ton, phone_encoded) ->
  Pdu.create_pdu_octets phone text ref_num part_num total_parts
  = Some ([0x00; 0x41; 0x00; len (Pdu.remove_plus phone); ton]
            ++ phone_encoded ++ [0x00; 0x00]
            ++ [7 + len text]
            ++ [6; 0x00; 0x03; Z.land ref_num 0xFF; total_parts; part_num]
            ++ Pdu.encode_gsm7 text).
Proof.
  intros Htotal Hgsm Hphone. unfold Pdu.create_pdu_octets.
  rewrite Hgsm, Hphone. apply Z.ltb_lt in Htotal. rewrite Htotal.
  cbn [Z.eqb]. change (len [0; 3; Z.land ref_num 255; total_parts; part_num] + 1)
    with 6.
  change (Pdu.padding_bits_of 6) with 0. cbn [Z.ltb Z.compare].
  rewrite <- !app_assoc. reflexivity.
Qed.

(** C2.  [create_pdu] computes the padding from [udh_len + 1 = 7] octets, not
    from the 6 octets of the header, and so gets 0 where the specification's
    formula gives 1.  For part 1 of 2 of the text [hello] the
    User-Data-Length is [7 + 5] with no septet added, and the payload is the
    zero-shift packing of [encode_gsm7]. *)
Theorem multipart_gsm7_padding_is_zero :
  Pdu.padding_bits_of 6 = 0
  /\ Spec.padding_bits = 1
  /\ Pdu.create_pdu_octets (lit "+1234567") (lit "hello") 7 1 2
     = Some ([0x00; 0x41; 0x00; 7; 0x91; 0x21; 0x43; 0x65; 0xF7; 0x00; 0x00]
               ++ [12]
               ++ [6; 0x00; 0x03; 7; 2; 1]
               ++ Pdu.encode_gsm7 (lit "hello"))
  /\ Pdu.encode_gsm7_with_padding (lit "hello") Spec.padding_bits
     <> Some (Pdu.encode_gsm7 (lit "hello")).
Proof. repeat split; vm_compute; try reflexivity; discriminate. Qed.

(** ** Substrings *)

Lemma startswith_app (s p : pystr) :
  startswith s p = true <-> exists l, s = p ++ l.
Proof.
  revert s. induction p as [| a p IH]; intros s.
  - split; [intros _; now exists s | intros _; now destruct s].
  - destruct s as [| b s]; cbn [startswith].
    + split; [discriminate | intros [l Hl]; discriminate].
    + rewrite andb_true_iff, Z.eqb_eq, IH. split.
      * intros [-> [l ->]]. now exists l.
      * intros [l Hl]. inversion Hl; subst. split; trivial. now exists l.
Qed.

Lemma contains_app (s p : pystr) :
  contains s p = true <-> exists l1 l2, s = l1 ++ p ++ l2.
Proof.
  induction s as [| c s IH]; cbn [contains]; rewrite orb_true_iff.
  - rewrite startswith_app. split.
    + intros [[l Hl] | Hf]; [now exists [], l | discriminate].
    + intros (l1 & l2 & Hl). left. exists l2.
      destruct l1; [trivial | discriminate].
  - rewrite startswith_app, IH. split.
    + intros [[l Hl] | (l1 & l2 & Hl)].
      * now exists [], l.
      * exists (c :: l1), l2. now rewrite Hl.
    + intros (l1 & l2 & Hl). destruct l1 as [| x l1].
      * left. now exists l2.
      * right. inversion Hl; subst. now exists l1, l2.
Qed.

(** A string that contains [a ++ p ++ b] contains [p]. *)
Lemma contains_inner (s a p b : pystr) :
  contains s (a ++ p ++ b) = true -> contains s p = true.
Proof.
  rewrite !contains_app. intros (l1 & l2 & ->).
  exists (l1 ++ a), (b ++ l2). now rewrite <- !app_assoc.
Qed.

Lemma count_from_nonneg (p : pystr) : forall s skip, 0 <= count_from s p skip.
Proof.
  induction s as [| c s IH]; intros skip; cbn [count_from]; [lia|].
  destruct skip; [| apply IH].
  destruct (startswith (c :: s) p);
    [specialize (IH (length p - 1)%nat); lia | apply IH].
Qed.

(** [s.count(p) == 0] says that [p] does not occur in [s]. *)
Lemma count_zero (s p : pystr) :
  p <> [] -> (count s p =? 0) = negb (contains s p).
Proof.
  intros Hp. unfold count.
  induction s as [| c s IH]; cbn [count_from contains].
  - destruct p; [contradiction | reflexivity].
  - destruct (startswith (c :: s) p); cbn [orb negb].
    + apply Z.eqb_neq.
      pose proof (count_from_nonneg p s (length p - 1)). lia.
    + apply IH.
Qed.

Lemma count_pos (s p : pystr) :
  p <> [] -> (0 <? count s p) = contains s p.
Proof.
  intros Hp. pose proof (count_zero s Hp) as Hz.
  pose proof (count_from_nonneg p s 0) as Hn. fold (count s p) in Hn.
  destruct (contains s p); cbn [negb] in Hz.
  - apply Z.eqb_neq in Hz. apply Z.ltb_lt. lia.
  - apply Z.eqb_eq in Hz. rewrite Hz. reflexivity.
Qed.

(** ** lib/database.py: the response checks *)

(** The checks in the order that decides: the error count first, and without
    the test for [+CMS ERROR:], which the test for [ERROR] covers. *)
Lemma classify_response_eq (resp : pystr) (modem_timeout : Z) :
  Database.classify_response resp modem_timeout
  = let trimmed := strip resp in
    let clean := upper trimmed in
    if contains clean (lit "ERROR") then (false, Some (prefix 255 trimmed))
    else if contains clean (lit "+CMGS:") then (true, None)
    else if contains clean (lit "OK") && (2 <? len clean) then (true, None)
    else if len trimmed =? 0 then
      (false, Some (lit "No response from modem (timeout after "
                      ++ str_of_int modem_timeout ++ lit "s)"))
    else if 5 <? len trimmed then (true, None)
    else (false,
          Some (lit "Ambiguous modem response: " ++ prefix 50 trimmed)).
Proof.
  unfold Database.classify_response. cbv zeta.
  set (trimmed := strip resp). set (clean := upper trimmed).
  assert (Herr : lit "ERROR" <> []) by discriminate.
  rewrite (count_zero clean Herr), (count_pos clean Herr).
  destruct (contains clean (lit "ERROR")) eqn:He; cbn [negb andb orb].
  - now rewrite andb_false_r.
  - rewrite andb_true_r.
    destruct (contains clean (lit "+CMGS:")); trivial.
    destruct (contains clean (lit "+CMS ERROR:")) eqn:Hcms; trivial.
    change (lit "+CMS ERROR:")
      with (lit "+CMS " ++ lit "ERROR" ++ lit ":") in Hcms.
    apply contains_inner in Hcms. congruence.
Qed.

(** C5, as the code has it.  The checks read the response trimmed and in
    upper case.  The attempt is a success exactly when that text has no
    [ERROR] and either has [+CMGS:], or has [OK] and more than 2 characters,
    or the trimmed response has more than 5 characters.  A failure carries
    the trimmed response (first 255 characters) when [ERROR] occurs, the
    time-out text when the trimmed response is empty, and the text for an
    ambiguous response otherwise. *)
Theorem classify_response_rule (resp : pystr) (modem_timeout : Z) :
  let trimmed := strip resp in
  let clean := upper trimmed in
  (fst (Database.classify_response resp modem_timeout) = true
   <-> contains clean (lit "ERROR") = false
       /\ (contains clean (lit "+CMGS:") = true
           \/ (contains clean (lit "OK") = true /\ 2 < len clean)
           \/ 5 < len trimmed))
  /\ snd (Database.classify_response resp modem_timeout)
     = if fst (Database.classify_response resp modem_timeout) then None
       else if contains clean (lit "ERROR")
       then Some (prefix 255 trimmed)
       else if len trimmed =? 0
       then Some (lit "No response from modem (timeout after "
                    ++ str_of_int modem_timeout ++ lit "s)")
       else Some (lit "Ambiguous modem response: " ++ prefix 50 trimmed).
Proof.
  rewrite classify_response_eq. cbv zeta.
  set (trimmed := strip resp). set (clean := upper trimmed).
  destruct (contains clean (lit "ERROR")); cbn [fst snd].
  { split; trivial. split; [discriminate | intros [? _]; discriminate]. }
  destruct (contains clean (lit "+CMGS:")); cbn [fst snd].
  { split; trivial. split; auto. }
  destruct (contains clean (lit "OK")); cbn [andb].
  - destruct (2 <? len clean) eqn:H2; cbn [fst snd].
    { apply Z.ltb_lt in H2. split; trivial. split; auto. }
    apply Z.ltb_ge in H2.
    destruct (len trimmed =? 0) eqn:H0; cbn [fst snd].
    { apply Z.eqb_eq in H0. split; trivial.
      split; [discriminate |]. intros [_ [? | [[_ ?] | ?]]]; first [lia | discriminate]. }
    destruct (5 <? len trimmed) eqn:H5; cbn [fst snd]; split; trivial.
    + apply Z.ltb_lt in H5. split; auto.
    + apply Z.ltb_ge in H5. split; [discriminate |].
      intros [_ [? | [[_ ?] | ?]]]; first [lia | discriminate].
  - destruct (len trimmed =? 0) eqn:H0; cbn [fst snd].
    { apply Z.eqb_eq in H0. split; trivial.
      split; [discriminate |]. intros [_ [? | [[? _] | ?]]]; first [lia | discriminate]. }
    destruct (5 <? len trimmed) eqn:H5; cbn [fst snd]; split; trivial.
    + apply Z.ltb_lt in H5. split; auto.
    + apply Z.ltb_ge in H5. split; [discriminate |].
      intros [_ [? | [[? _] | ?]]]; first [lia | discriminate].
Qed.

Lemma classify_response_rule_witness :
  fst (Database.classify_response (lit "  +CMGS: 12  ") 30) = true.
Proof.
  apply (classify_response_rule (lit "  +CMGS: 12  ") 30).
  split; [by_computation | left; by_computation].
Defined.

(** C5, as stated, fails on [OKAY]: no line of it equals [OK] and it has
    fewer than 6 characters, so the stated rule makes it a failure, and the
    code takes it for a success. *)
Lemma classify_response_okay :
  Spec.has_ok_line (lit "OKAY") = false
  /\ Spec.claimed_success (lit "OKAY") = false
  /\ fst (Database.classify_response (lit "OKAY") 30) = true.
Proof. repeat split; vm_compute; reflexivity. Qed.

(** ** lib/database.py: the row updates *)








(** C6, as the code has it.  After a successful attempt the row has status
    sent, and sent_at and updated_at set to the current time; every other
    column, attempts and error_message among them, is as before. *)
Theorem success_transition (now modem_timeout : Z) (resp : pystr)
    (r : Database.row) :
  fst (Database.classify_response resp modem_timeout) = true ->
  Database.transition now modem_timeout (Database.Returned resp) r
  = Database.mkRow (Database.id r) (Database.phone_number r)
      (Database.recipient r) (Database.message r)
      Database.sent (Database.attempts r) (Database.error_message r)
      (Database.created_at r) (Some now) (Some now).
Proof.
  intros Hok. unfold Database.transition, Database.outcome_update.
  destruct (Database.classify_response resp modem_timeout) as [ok msg].
  cbn in Hok. subst ok. reflexivity.
Qed.

Lemma success_transition_witness :
  Database.transition 100 30 (Database.Returned (lit "+CMGS: 12"))
    Spec.retried_row
  = Database.mkRow 1 (lit "+1234567") (lit "Ann") (lit "hello")
      Database.sent 2 (Some (lit "+CMS ERROR: 500")) 0 (Some 100) (Some 100).
Proof.
  apply (@success_transition 100 30 (lit "+CMGS: 12") Spec.retried_row).
  by_computation.
Defined.

(** C6, as stated, fails on a row that failed before: the successful attempt
    leaves the stored error text in place. *)
Lemma success_keeps_error_message :
  Database.error_message
    (Database.transition 100 30 (Database.Returned (lit "+CMGS: 12"))
       Spec.retried_row)
  = Some (lit "+CMS ERROR: 500")
  /\ Database.transition 100 30 (Database.Returned (lit "+CMGS: 12"))
       Spec.retried_row
     <> Spec.claimed_sent_row 100 Spec.retried_row.
Proof. split; vm_compute; [reflexivity | discriminate]. Qed.

(** The table after [execute]: the matching rows are updated, the others are
    untouched. *)
Lemma execute_row (now : Z) (u : Database.sql_update) (msg_id : Z)
    (outbox : list Database.row) (r : Database.row) :
  In r outbox ->
  In (if Database.id r =? msg_id then Database.apply_update now u r else r)
     (Database.execute now u msg_id outbox).
Proof.
  intros Hin. unfold Database.execute.
  apply (in_map (fun r => if Database.id r =? msg_id
                          then Database.apply_update now u r else r)) in Hin.
  exact Hin.
Qed.

Lemma select_pending_selectable (outbox : list Database.row)
    (r : Database.row) :
  In r (Database.select_pending outbox) ->
  Database.row_status r = Database.pending /\ 0 < Database.attempts r.
Proof.
  unfold Database.select_pending. intros Hin.
  assert (Hall : In r (Database.order_by_id
                         (filter Database.is_selectable outbox))).
  { rewrite <- (firstn_skipn 5). apply in_or_app. now left. }
  clear Hin. rename Hall into Hin.
  assert (Hsel : In r (filter Database.is_selectable outbox)).
  { revert Hin. unfold Database.order_by_id.
    induction (filter Database.is_selectable outbox) as [| x l IH];
      cbn [fold_right]; trivial.
    intros Hin.
    assert (Hins : forall a l', In r (Database.insert_by_id a l') ->
                                r = a \/ In r l').
    { clear. intros a l'. induction l' as [| y l' IH]; cbn.
      - intuition.
      - destruct (Database.id a <=? Database.id y); cbn; intuition. }
    apply Hins in Hin. destruct Hin as [-> | Hin]; [now left | right; auto]. }
  apply filter_In in Hsel. destruct Hsel as [_ Hsel].
  unfold Database.is_selectable in Hsel.
  apply andb_true_iff in Hsel. destruct Hsel as [Hs Ha].
  apply Z.ltb_lt in Ha. split; trivial.
  now destruct (Database.row_status r).
Qed.

(** The loop body of [process_pending_sms] applies [transition] to the
    message's own row. *)
Section CycleFacts.

Variable world : Type.
Variable send_sms_func :
  world -> pystr -> pystr -> Z -> world * Database.send_result.
Variable db_now : world -> Z.

Lemma process_message_row (modem_timeout : Z) (w : world)
    (outbox : list Database.row) (msg : Database.row) :
  In msg outbox ->
  In (Database.transition
        (db_now (fst (send_sms_func w (Database.phone_number msg)
                        (Database.message msg) modem_timeout)))
        modem_timeout
        (snd (send_sms_func w (Database.phone_number msg)
                (Database.message msg) modem_timeout))
        msg)
     (snd (Database.process_message send_sms_func db_now modem_timeout
             w outbox msg)).
Proof.
  intros Hin. unfold Database.process_message, Database.transition.
  destruct (send_sms_func w (Database.phone_number msg)
              (Database.message msg) modem_timeout) as [w' res].
  cbn [fst snd].
  pose proof (execute_row (db_now w')
                (Database.outcome_update (Database.attempts msg)
                   modem_timeout res)
                (Database.id msg) outbox msg Hin) as Hrow.
  now rewrite Z.eqb_refl in Hrow.
Qed.

End CycleFacts.

(** ** lib/pdu.py: the phone number *)

Lemma list_pair_ind {A} (P : list A -> Prop) :
  P [] -> (forall a, P [a]) -> (forall a b l, P l -> P (a :: b :: l)) ->
  forall l, P l.
Proof.
  intros Hnil Hone Hstep l.
  assert (H : P l /\ forall a, P (a :: l)).
  { induction l as [| x l [IHl IHx]]; split; auto. }
  apply H.
Qed.

Lemma hex_value_digit (d : Z) :
  Spec.ascii_digit d = true -> Pdu.hex_value d = Some (d - 48).
Proof.
  unfold Spec.ascii_digit, Pdu.hex_value. now intros ->.
Qed.

Lemma len_cons2_mod {A} (a b : A) (l : list A) :
  len (a :: b :: l) mod 2 = len l mod 2.
Proof.
  unfold len. cbn [length].
  replace (Z.of_nat (S (S (length l)))) with (Z.of_nat (length l) + 1 * 2)
    by lia.
  apply Z_mod_plus_full.
Qed.

(** Padding with [F], swapping the pairs and reading them as hexadecimal
    gives the semi-octets. *)
Lemma fromhex_swap_pairs (digits : pystr) :
  forallb Spec.ascii_digit digits = true ->
  Pdu.fromhex
    (Pdu.swap_pairs
       (if len digits mod 2 =? 0 then digits else digits ++ [Pdu.letter_F]))
  = Some (Spec.semi_octets digits).
Proof.
  induction digits as [| a | a b digits IH] using list_pair_ind; intros Hd.
  - reflexivity.
  - cbn [forallb] in Hd. apply andb_true_iff in Hd. destruct Hd as [Ha _].
    change (len [a] mod 2 =? 0) with false.
    cbn [app Pdu.swap_pairs Pdu.fromhex].
    rewrite (hex_value_digit _ Ha). reflexivity.
  - cbn [forallb] in Hd. apply andb_true_iff in Hd. destruct Hd as [Ha Hd].
    apply andb_true_iff in Hd. destruct Hd as [Hb Hd].
    rewrite len_cons2_mod. specialize (IH Hd).
    destruct (len digits mod 2 =? 0);
      cbn [app Pdu.swap_pairs Pdu.fromhex Spec.semi_octets];
      rewrite (hex_value_digit _ Ha), (hex_value_digit _ Hb), IH; reflexivity.
Qed.

Lemma startswith_plus_digits (digits : pystr) :
  forallb Spec.ascii_digit digits = true ->
  startswith digits [Pdu.plus_sign] = false.
Proof.
  destruct digits as [| d digits]; trivial.
  cbn [forallb startswith]. intros Hd.
  apply andb_true_iff in Hd. destruct Hd as [Hd _].
  unfold Spec.ascii_digit in Hd. apply andb_true_iff in Hd.
  destruct Hd as [Hlo _]. apply Z.leb_le in Hlo.
  destruct (Pdu.plus_sign =? d) eqn:Heq; trivial.
  apply Z.eqb_eq in Heq. unfold Pdu.plus_sign in Heq. lia.
Qed.

(** C9, as the code has it.  [encode_phone_number] keeps the digits and
    every [+] of its argument and drops all other characters.  When what is
    kept is a string of ASCII digits, with or without one [+] in front, the
    [+] gives type-of-number [0x91] and is left out of the digits, its
    absence gives [0x81]; an odd number of digits is padded with [F]; every
    pair of digits is swapped.  [+1234567] gives [(0x91, 21 43 65 F7)] and
    [1234567] gives [(0x81, 21 43 65 F7)]. *)
Theorem encode_phone_number_digits :
  (forall (phone digits : pystr) (plus : bool),
     filter (fun c => Pdu.isdigit c || (c =? Pdu.plus_sign)) phone
       = (if plus then [Pdu.plus_sign] else []) ++ digits ->
     forallb Spec.ascii_digit digits = true ->
     Pdu.encode_phone_number phone
     = Some (if plus then 0x91 else 0x81, Spec.semi_octets digits))
  /\ Pdu.encode_phone_number (lit "+1234567")
     = Some (0x91, [0x21; 0x43; 0x65; 0xF7])
  /\ Pdu.encode_phone_number (lit "1234567")
     = Some (0x81, [0x21; 0x43; 0x65; 0xF7]).
Proof.
  split; [| split; vm_compute; reflexivity].
  intros phone digits plus Hkept Hdigits.
  unfold Pdu.encode_phone_number. rewrite Hkept.
  destruct plus; cbn [app].
  - assert (Hnil : startswith digits [] = true) by now destruct digits.
    pose proof (fromhex_swap_pairs _ Hdigits) as Hhex.
    cbn [startswith]. rewrite Z.eqb_refl, Hnil. cbn [andb skipn].
    unfold pystr in *. now rewrite Hhex.
  - pose proof (fromhex_swap_pairs _ Hdigits) as Hhex.
    rewrite (startswith_plus_digits _ Hdigits).
    unfold pystr in *. now rewrite Hhex.
Qed.

Lemma encode_phone_number_digits_witness :
  Pdu.encode_phone_number (lit "+94 (77) 123-456")
  = Some (0x91, Spec.semi_octets (lit "9477123456")).
Proof.
  apply (proj1 encode_phone_number_digits
           (lit "+94 (77) 123-456") (lit "9477123456") true);
    by_computation.
Defined.

(** C9, as stated, fails on [1+2]: the [+] inside the number is kept, and
    the hexadecimal reading of the swapped string raises [ValueError], where
    the stated rule strips it and gives [(0x81, 21)]. *)
Lemma encode_phone_number_inner_plus :
  Pdu.encode_phone_number (lit "1+2") = None
  /\ Spec.phone_codec (lit "1+2") = (0x81, [0x21]).
Proof. split; vm_compute; reflexivity. Qed.

(** * Further properties *)

(** ** lib/encoding.py: the parts that [split_message] returns *)

Lemma weighted_count_app (a b : pystr) :
  Encoding.weighted_count (a ++ b)
  = Encoding.weighted_count a + Encoding.weighted_count b.
Proof.
  induction a as [| c a IH]; cbn [app Encoding.weighted_count]; lia.
Qed.

Lemma weighted_count_concat (parts : list pystr) :
  Encoding.weighted_count (concat parts)
  = fold_right Z.add 0 (map Encoding.weighted_count parts).
Proof.
  induction parts as [| p parts IH]; cbn [concat map fold_right]; trivial.
  rewrite weighted_count_app. lia.
Qed.

Lemma weighted_count_bounds (text : pystr) :
  len text <= Encoding.weighted_count text <= 2 * len text.
Proof.
  unfold len. induction text as [| c text IH].
  - cbn. lia.
  - cbn [Encoding.weighted_count length].
    destruct (char_in c Encoding.gsm7_extended); lia.
Qed.

(** The loop with the weights in view.  [m] bounds the weight of every
    character of the text: a closed part is within the budget, and less than
    [m] short of it. *)
Lemma split_gsm7_loop_weights (chars_per_part m : Z) :
  2 <= chars_per_part ->
  forall text parts cur curlen parts' cur',
    Forall (fun c => Encoding.char_weight c <= m) text ->
    curlen = Encoding.weighted_count cur ->
    curlen <= chars_per_part ->
    Forall (fun p => chars_per_part - m < Encoding.weighted_count p
                     <= chars_per_part) parts ->
    Encoding.split_gsm7_loop text chars_per_part parts cur curlen
      = (parts', cur') ->
    Forall (fun p => chars_per_part - m < Encoding.weighted_count p
                     <= chars_per_part) parts'
    /\ Encoding.weighted_count cur' <= chars_per_part.
Proof.
  intros Hcpp.
  induction text as [| char rest IH];
    intros parts cur curlen parts' cur' Hm Hlen Hfit Hparts Hloop;
    cbn [Encoding.split_gsm7_loop] in Hloop.
  - inversion Hloop; subst. split; trivial.
  - inversion Hm as [| ? ? Hchar Hrest]; subst.
    fold (Encoding.char_weight char) in Hloop.
    assert (Hw : 1 <= Encoding.char_weight char <= 2)
      by (unfold Encoding.char_weight;
          destruct (char_in char Encoding.gsm7_extended); lia).
    destruct (Encoding.weighted_count cur + Encoding.char_weight char
              <=? chars_per_part) eqn:Hle.
    + apply Z.leb_le in Hle.
      apply (IH _ _ _ _ _ Hrest) in Hloop; trivial.
      * rewrite weighted_count_app. cbn [Encoding.weighted_count].
        fold (Encoding.char_weight char). lia.
    + apply Z.leb_gt in Hle.
      apply (IH _ _ _ _ _ Hrest) in Hloop; trivial.
      * cbn [Encoding.weighted_count]. fold (Encoding.char_weight char). lia.
      * lia.
      * apply Forall_app. split; trivial. constructor; [lia | constructor].
Qed.

Lemma Forall_removelast {A} (P : A -> Prop) (l : list A) :
  Forall P l -> Forall P (removelast l).
Proof.
  induction l as [| x l IH]; intros H; trivial.
  inversion H; subst. destruct l as [| y l]; [constructor|].
  change (removelast (x :: y :: l)) with (x :: removelast (y :: l)).
  constructor; auto.
Qed.

(** The result of [split_message] on a GSM7 text, from the final state of
    the loop. *)
Lemma split_message_gsm7_state (text : pystr) (chars_per_part : Z)
    (parts : list pystr) :
  Encoding.is_gsm7_compatible text = true ->
  Encoding.split_message text chars_per_part = Some parts ->
  exists closed cur,
    Encoding.split_gsm7_loop text chars_per_part [] [] 0 = (closed, cur)
    /\ ((cur = [] /\ parts = closed) \/ (cur <> [] /\ parts = closed ++ [cur])).
Proof.
  intros Hgsm. unfold Encoding.split_message. rewrite Hgsm.
  destruct (Encoding.split_gsm7_loop text chars_per_part [] [] 0)
    as [closed cur].
  intros Hparts. exists closed, cur. split; trivial.
  destruct cur as [| c cur]; inversion Hparts; subst.
  - now left.
  - right. split; [discriminate | reflexivity].
Qed.

Lemma char_weight_le_2 (text : pystr) :
  Forall (fun c => Encoding.char_weight c <= 2) text.
Proof.
  apply Forall_forall. intros c _. unfold Encoding.char_weight.
  destruct (char_in c Encoding.gsm7_extended); lia.
Qed.

(** The weights of the parts of a GSM7 text. *)
Lemma split_message_gsm7_weights (text : pystr) (chars_per_part : Z)
    (parts : list pystr) :
  2 <= chars_per_part ->
  Encoding.is_gsm7_compatible text = true ->
  Encoding.split_message text chars_per_part = Some parts ->
  Forall (fun p => 1 <= Encoding.weighted_count p <= chars_per_part) parts
  /\ Forall (fun p => chars_per_part - 1 <= Encoding.weighted_count p)
            (removelast parts).
Proof.
  intros Hcpp Hgsm Hsplit.
  destruct (@split_message_gsm7 text chars_per_part Hcpp Hgsm) as (parts0 & Hs0 & _ & Hne).
  rewrite Hsplit in Hs0. inversion Hs0; subst parts0. clear Hs0.
  destruct (@split_message_gsm7_state text chars_per_part parts Hgsm Hsplit)
    as (closed & cur & Hloop & Hshape).
  apply (@split_gsm7_loop_weights chars_per_part 2 Hcpp) in Hloop;
    [| apply char_weight_le_2 | reflexivity | cbn; lia | constructor].
  destruct Hloop as [Hclosed Hcur].
  assert (Hall : Forall (fun p => Encoding.weighted_count p <= chars_per_part)
                        parts).
  { destruct Hshape as [[_ ->] | [_ ->]].
    - eapply Forall_impl; [| exact Hclosed]. cbn. intros; lia.
    - apply Forall_app. split.
      + eapply Forall_impl; [| exact Hclosed]. cbn. intros; lia.
      + constructor; [trivial | constructor]. }
  split.
  - apply Forall_forall. intros p Hp.
    rewrite Forall_forall in Hall, Hne.
    specialize (Hall p Hp). specialize (Hne p Hp).
    pose proof (weighted_count_bounds p) as Hb.
    assert (0 < len p).
    { unfold len. destruct p; [now elim Hne | cbn; lia]. }
    lia.
  - destruct Hshape as [[_ ->] | [_ ->]].
    + apply Forall_removelast.
      eapply Forall_impl; [| exact Hclosed]. cbn. intros; lia.
    + rewrite removelast_last.
      eapply Forall_impl; [| exact Hclosed]. cbn. intros; lia.
Qed.







Lemma weighted_count_basic (p : pystr) :
  Forall (fun c => char_in c Encoding.gsm7_extended = false) p ->
  Encoding.weighted_count p = len p.
Proof.
  unfold len. induction p as [| c p IH]; intros H; trivial.
  inversion H as [| ? ? Hc Hp]; subst.
  cbn [Encoding.weighted_count length]. rewrite Hc, (IH Hp). lia.
Qed.

(** X3.  For a GSM7-compatible text without extended characters that is too
    long for one message, [split_message] with the budget 153 returns exactly
    the [num_parts] of [calculate_sms_parts], and every part but the last has
    153 characters. *)
Theorem gsm7_basic_only_count (text : pystr) :
  Encoding.is_gsm7_compatible text = true ->
  Forall (fun c => char_in c Encoding.gsm7_extended = false) text ->
  160 < Encoding.weighted_count text ->
  exists parts,
    Encoding.split_message text 153 = Some parts
    /\ len parts = fst (fst (Encoding.calculate_sms_parts text))
    /\ Forall (fun p => len p = 153) (removelast parts).
Proof.
  intros Hgsm Hbasic Hw.
  destruct (@split_message_gsm7 text 153) as (parts & Hsplit & Hcat & _);
    [lia | trivial |].
  exists parts. split; trivial.
  assert (Hparts_basic :
    forall p, In p parts ->
              Forall (fun c => char_in c Encoding.gsm7_extended = false) p).
  { intros p Hp. apply Forall_forall. intros c Hc.
    rewrite Forall_forall in Hbasic. apply Hbasic.
    rewrite <- Hcat. apply in_concat. eauto. }
  destruct (@split_message_gsm7_weights text 153 parts) as [Hall _];
    trivial; [lia|].
  destruct (@split_message_gsm7_state text 153 parts Hgsm Hsplit)
    as (closed & cur & Hloop & Hshape).
  apply (@split_gsm7_loop_weights 153 1) in Hloop;
    [| lia | | reflexivity | cbn; lia | constructor].
  2:{ eapply Forall_impl; [| exact Hbasic]. cbv beta. intros c Hc.
      unfold Encoding.char_weight. rewrite Hc. lia. }
  destruct Hloop as [Hclosed _].
  assert (Hfull : Forall (fun p => Encoding.weighted_count p = 153)
                         (removelast parts)).
  { destruct Hshape as [[_ ->] | [_ ->]];
      [apply Forall_removelast | rewrite removelast_last];
      (eapply Forall_impl; [| exact Hclosed]); cbn; intros; lia. }
  assert (Htext : text <> []) by (intros ->; cbn in Hw; lia).
  assert (Hne : parts <> []) by (intros ->; cbn in Hcat; congruence).
  destruct (exists_last Hne) as (init & lst & Heq). subst parts.
  rewrite removelast_last in Hfull |- *.
  split.
  - apply Forall_app in Hall. destruct Hall as [_ Hlst].
    apply Forall_inv in Hlst.
    assert (Hsum : fold_right Z.add 0 (map Encoding.weighted_count init)
                   = 153 * len init).
    { clear - Hfull. unfold len.
      induction init as [| p init IH]; [reflexivity|].
      inversion Hfull; subst. cbn [map fold_right length].
      rewrite IH by assumption. lia. }
    assert (Hwsum : Encoding.weighted_count text
                    = 153 * len init + Encoding.weighted_count lst).
    { rewrite <- Hcat, concat_app, weighted_count_app, weighted_count_concat.
      cbn [concat]. rewrite app_nil_r. now rewrite Hsum. }
    unfold Encoding.calculate_sms_parts. rewrite Hgsm.
    apply Z.leb_gt in Hw. rewrite Hw. cbn [fst].
    rewrite len_app. change (len [lst]) with 1.
    pose proof (Z.div_mod (Encoding.weighted_count text + 152) 153).
    pose proof (Z.mod_pos_bound (Encoding.weighted_count text + 152) 153).
    lia.
  - apply Forall_forall. intros p Hp.
    rewrite Forall_forall in Hfull.
    rewrite <- (weighted_count_basic (Hparts_basic p
                  ltac:(apply in_or_app; now left))).
    now apply Hfull.
Qed.

Lemma gsm7_basic_only_count_witness :
  exists parts,
    Encoding.split_message (repeat 97 400) 153 = Some parts
    /\ len parts
       = fst (fst (Encoding.calculate_sms_parts (repeat 97 400)))
    /\ Forall (fun p => len p = 153) (removelast parts).
Proof.
  apply (@gsm7_basic_only_count (repeat 97 400)).
  - by_computation.
  - apply Forall_forall. intros c Hc. apply repeat_spec in Hc. now subst.
  - by_computation.
Defined.

(** The slices of a text that is not GSM7-compatible, by position. *)
Lemma split_message_ucs2_explicit (text : pystr) (chars_per_part : Z) :
  1 <= chars_per_part ->
  Encoding.is_gsm7_compatible text = false ->
  Encoding.split_message text chars_per_part
  = Some (map (fun k => firstn (Z.to_nat chars_per_part)
                          (skipn (k * Z.to_nat chars_per_part) text))
              (seq 0 (Z.to_nat
                        ((len text + chars_per_part - 1) / chars_per_part)))).
Proof.
  intros Hcpp Hgsm. unfold Encoding.split_message. rewrite Hgsm.
  rewrite range_chunks by lia. f_equal.
  rewrite map_map. apply map_ext. intros k.
  set (c := Z.to_nat chars_per_part).
  replace chars_per_part with (Z.of_nat c) by (subst c; lia).
  rewrite <- Nat2Z.inj_mul. apply slice_nat.
Qed.

(** X4.  On a text that is not GSM7-compatible and a budget of at least 1,
    [split_message] cuts the text into pieces of exactly [chars_per_part]
    characters, the last one holding the 1 to [chars_per_part] characters
    that remain; there are [ceil (len / chars_per_part)] pieces. *)
Theorem split_message_ucs2_sizes (text : pystr) (chars_per_part : Z)
    (parts : list pystr) :
  1 <= chars_per_part ->
  Encoding.is_gsm7_compatible text = false ->
  Encoding.split_message text chars_per_part = Some parts ->
  Forall (fun p => 1 <= len p <= chars_per_part) parts
  /\ Forall (fun p => len p = chars_per_part) (removelast parts)
  /\ len parts = Spec.ceil_div (len text) chars_per_part.
Proof.
  intros Hcpp Hgsm Hsplit.
  rewrite (@split_message_ucs2_explicit text chars_per_part Hcpp Hgsm)
    in Hsplit.
  inversion Hsplit as [Hparts]. clear Hsplit.
  set (c := Z.to_nat chars_per_part) in *.
  set (m := Z.to_nat ((len text + chars_per_part - 1) / chars_per_part)) in *.
  assert (Hc : chars_per_part = Z.of_nat c) by (subst c; lia).
  assert (Hm : (len text + chars_per_part - 1) / chars_per_part = Z.of_nat m).
  { subst m. rewrite Z2Nat.id; trivial.
    apply Z.div_pos; [pose proof (len_nonneg text)|]; lia. }
  assert (Hbound : Z.of_nat m * Z.of_nat c - Z.of_nat c
                   < Z.of_nat (length text) <= Z.of_nat m * Z.of_nat c).
  { rewrite <- Hm, <- Hc. fold (len text).
    pose proof (Z.div_mod (len text + chars_per_part - 1) chars_per_part).
    pose proof (Z.mod_pos_bound (len text + chars_per_part - 1)
                  chars_per_part).
    nia. }
  assert (Hlen : forall k, (k < m)%nat ->
            length (firstn c (skipn (k * c) text))
            = Nat.min c (length text - k * c)).
  { intros k _. now rewrite length_firstn, length_skipn. }
  split; [| split].
  - apply Forall_forall. intros p Hp. apply in_map_iff in Hp.
    destruct Hp as (k & <- & Hk). apply in_seq in Hk.
    unfold len. rewrite Hlen by lia. nia.
  - destruct m as [| m']; [constructor|].
    rewrite seq_S, map_app. cbn [map]. rewrite removelast_last.
    apply Forall_forall. intros p Hp. apply in_map_iff in Hp.
    destruct Hp as (k & <- & Hk). apply in_seq in Hk.
    unfold len. rewrite Hlen by lia. nia.
  - unfold Spec.ceil_div. rewrite Hm. unfold len.
    now rewrite length_map, length_seq.
Qed.

Lemma split_message_ucs2_sizes_witness :
  Forall (fun p => 1 <= len p <= 3)
         [lit "ab" ++ [8365]; lit "def"; lit "g"]
  /\ Forall (fun p => len p = 3)
            (removelast [lit "ab" ++ [8365]; lit "def"; lit "g"])
  /\ len [lit "ab" ++ [8365]; lit "def"; lit "g"]
     = Spec.ceil_div (len (lit "ab" ++ [8365] ++ lit "defg")) 3.
Proof.
  apply (@split_message_ucs2_sizes (lit "ab" ++ [8365] ++ lit "defg") 3);
    by_computation.
Defined.

(** ** lib/encoding.py: what [calculate_sms_parts] announces *)


Lemma ucs2_parts_count_witness :
  exists parts,
    Encoding.split_message (repeat 8365 135) 67 = Some parts
    /\ len parts
       = fst (fst (Encoding.calculate_sms_parts (repeat 8365 135))).
Proof.
  apply (@ucs2_parts_count (repeat 8365 135)); by_computation.
Defined.

Lemma create_pdu_args_multipart_witness :
  exists args,
    Modem.create_pdu_args (repeat 8365 71) 9 = Some args
    /\ map (fun '(part, _, _, _) => part) args
       = [repeat 8365 67; repeat 8365 4]
    /\ map (fun '(_, r, _, _) => r) args
       = map (fun _ => 9) [repeat 8365 67; repeat 8365 4]
    /\ map (fun '(_, _, i, _) => i) args
       = map (fun k => 1 + Z.of_nat k)
             (seq 0 (length [repeat 8365 67; repeat 8365 4]))
    /\ map (fun '(_, _, _, n) => n) args
       = map (fun _ => 2) [repeat 8365 67; repeat 8365 4].
Proof.
  apply (@create_pdu_args_multipart (repeat 8365 71) 9 2 67 Encoding.UCS2
           [repeat 8365 67; repeat 8365 4]); by_computation.
Defined.


(** ** lib/pdu.py: septets and octets *)





Lemma index_bounds (c : Z) (s : pystr) (i : Z) :
  index c s = Some i -> 0 <= i < len s.
Proof.
  unfold len. revert i. induction s as [| x s IH]; intros i; cbn [index].
  - discriminate.
  - destruct (x =? c).
    + intros [= <-]. cbn [length]. lia.
    + destruct (index c s) as [j |]; [| discriminate].
      intros [= <-]. specialize (IH j eq_refl). cbn [length]. lia.
Qed.

Lemma dict_get_In (c v : Z) (d : list (Z * Z)) :
  dict_get c d = Some v -> In v (map snd d).
Proof.
  induction d as [| [k w] d IH]; cbn [dict_get map snd]; [discriminate|].
  destruct (k =? c).
  - intros [= <-]. now left.
  - intros H. right. auto.
Qed.

Lemma to_septets_range (text : pystr) :
  Forall Pdu.septet (Pdu.to_septets text).
Proof.
  induction text as [| c text IH]; cbn [Pdu.to_septets]; [constructor|].
  destruct (dict_get c Pdu.gsm7_extended) as [code |] eqn:Hd.
  - apply dict_get_In in Hd.
    assert (Hcode : Pdu.septet code)
      by (cbn in Hd; unfold Pdu.septet; intuition lia).
    constructor; [unfold Pdu.septet; lia | constructor; auto].
  - destruct (index c Pdu.gsm7_basic) as [i |] eqn:Hi.
    + apply index_bounds in Hi.
      change (len Pdu.gsm7_basic) with 127 in Hi.
      constructor; [unfold Pdu.septet; lia | trivial].
    + constructor; [unfold Pdu.septet; lia | trivial].
Qed.

Lemma land_255_octet (a : Z) : Pdu.octet (Z.land a 0xFF).
Proof.
  unfold Pdu.octet. change 0xFF with (Z.ones 8).
  rewrite Z.land_ones by lia. change (2 ^ 8) with 256.
  change (Z.ones 8) with 255.
  pose proof (Z.mod_pos_bound a 256). lia.
Qed.

Lemma shiftr_septet (s k : Z) :
  Pdu.septet s -> 0 <= k -> Pdu.septet (Z.shiftr s k).
Proof.
  unfold Pdu.septet. intros Hs Hk. rewrite Z.shiftr_div_pow2 by lia.
  assert (0 < 2 ^ k) by (apply Z.pow_pos_nonneg; lia).
  split.
  - apply Z.div_pos; lia.
  - apply Z.div_lt_upper_bound; nia.
Qed.

(** The packing loop yields octets, at most one per septet, and one more
    for the carry of the last septet. *)
Lemma pack_loop_octets (n : Z) :
  forall septets i shift carry,
    Forall Pdu.septet septets ->
    0 <= shift <= 7 ->
    Forall Pdu.octet (Pdu.pack_loop septets n i shift carry)
    /\ len (Pdu.pack_loop septets n i shift carry)
       <= len septets + (if i <=? n - 1 then 1 else 0).
Proof.
  unfold len.
  induction septets as [| s septets IH]; intros i shift carry Hs Hshift;
    cbn [Pdu.pack_loop].
  - split; [constructor|]. cbn [length]. destruct (i <=? n - 1); lia.
  - inversion Hs as [| ? ? Hs1 Hrest]; subst.
    destruct (shift =? 7) eqn:H7.
    + destruct (IH (i + 1) 0 0 Hrest ltac:(lia)) as [Hoct Hlen].
      split; trivial. cbn [length].
      destruct (i + 1 <=? n - 1) eqn:E1; destruct (i <=? n - 1) eqn:E2; lia.
    + apply Z.eqb_neq in H7.
      destruct (IH (i + 1) (shift + 1) (Z.shiftr s (7 - shift)) Hrest
                  ltac:(lia)) as [Hoct Hlen].
      assert (Hcarry : Pdu.septet (Z.shiftr s (7 - shift)))
        by (apply shiftr_septet; [trivial | lia]).
      destruct ((i =? n - 1) && negb (Z.shiftr s (7 - shift) =? 0)) eqn:Hlast.
      * apply andb_true_iff in Hlast. destruct Hlast as [Hi _].
        apply Z.eqb_eq in Hi. split.
        -- constructor; [apply land_255_octet|].
           constructor; [unfold Pdu.septet, Pdu.octet in *; lia | trivial].
        -- cbn [length].
           destruct (i + 1 <=? n - 1) eqn:E1; destruct (i <=? n - 1) eqn:E2;
             try (apply Z.leb_le in E1); try (apply Z.leb_gt in E2); lia.
      * split.
        -- constructor; [apply land_255_octet | trivial].
        -- cbn [length].
           destruct (i + 1 <=? n - 1) eqn:E1; destruct (i <=? n - 1) eqn:E2;
             try (apply Z.leb_le in E1); try (apply Z.leb_gt in E2); lia.
Qed.

(** X8.  Every value that [encode_gsm7] hands to [bytes(...)] is in the
    range 0..255, for every text, so that the conversion cannot raise; and
    there are at most as many octets as septets, plus one. *)
Theorem encode_gsm7_octets (text : pystr) :
  Forall Pdu.octet (Pdu.encode_gsm7 text)
  /\ len (Pdu.encode_gsm7 text) <= len (Pdu.to_septets text) + 1.
Proof.
  unfold Pdu.encode_gsm7.
  destruct (@pack_loop_octets (len (Pdu.to_septets text))
              (Pdu.to_septets text) 0 0 0 (to_septets_range text)
              ltac:(lia)) as [Hoct Hlen].
  split; trivial.
  destruct (0 <=? len (Pdu.to_septets text) - 1); lia.
Qed.

(** X9.  [encode_gsm7_with_padding] raises exactly when the text is not
    empty and [padding_bits] is outside 0..7 (a negative shift count);
    otherwise it returns values in the range 0..255. *)
Theorem encode_gsm7_with_padding_result (text : pystr) (padding_bits : Z) :
  (Pdu.encode_gsm7_with_padding text padding_bits = None
   <-> text <> [] /\ (padding_bits < 0 \/ 7 < padding_bits))
  /\ (forall octets,
        Pdu.encode_gsm7_with_padding text padding_bits = Some octets ->
        Forall Pdu.octet octets).
Proof.
  unfold Pdu.encode_gsm7_with_padding.
  assert (Hne : Pdu.to_septets text = [] <-> text = []).
  { destruct text as [| c text]; [easy|].
    cbn [Pdu.to_septets].
    destruct (dict_get c Pdu.gsm7_extended);
      [| destruct (index c Pdu.gsm7_basic)]; easy. }
  destruct (Pdu.to_septets text) as [| s septets] eqn:Hsept.
  - split.
    + split; [discriminate|]. intros [Ht _]. exfalso. apply Ht. now apply Hne.
    + intros octets [= <-]. constructor.
  - assert (Htext : text <> []).
    { intros Ht. apply Hne in Ht. discriminate. }
    destruct ((padding_bits <? 0) || (7 <? padding_bits)) eqn:Hout.
    + split; [| discriminate]. split; trivial. intros _. split; trivial.
      apply orb_true_iff in Hout. destruct Hout as [H | H];
        apply Z.ltb_lt in H; lia.
    + apply orb_false_iff in Hout. destruct Hout as [H0 H7].
      apply Z.ltb_ge in H0. apply Z.ltb_ge in H7.
      split.
      * split; [discriminate|]. intros [_ [? | ?]]; lia.
      * intros octets Hoct.
        assert (Heq : octets
                      = Pdu.pack_loop (s :: septets) (len (s :: septets)) 0
                          padding_bits 0) by congruence.
        rewrite Heq.
        apply pack_loop_octets; [| lia].
        rewrite <- Hsept. apply to_septets_range.
Qed.

Lemma encode_gsm7_with_padding_result_witness :
  Forall Pdu.octet [206; 145; 91; 182; 205; 27].
Proof.
  apply (proj2 (encode_gsm7_with_padding_result (lit "hello") 1)).
  by_computation.
Defined.

(** ** lib/pdu.py: the phone number, in full *)

Lemma forallb_false_exists {A} (f : A -> bool) (l : list A) :
  forallb f l = false -> exists x, In x l /\ f x = false.
Proof.
  induction l as [| x l IH]; cbn [forallb]; [discriminate|].
  destruct (f x) eqn:Hx.
  - intros H. destruct (IH H) as (y & Hy & Hfy). exists y. split; auto.
    now right.
  - intros _. exists x. split; auto. now left.
Qed.

(** A character that [str.isdigit] accepts is an ASCII digit or lies beyond
    the ASCII range. *)
Lemma isdigit_cases (c : Z) :
  Pdu.isdigit c = true -> Spec.ascii_digit c = true \/ 178 <= c.
Proof.
  unfold Pdu.isdigit. intros H. apply existsb_exists in H.
  destruct H as ([lo hi] & Hin & Hc).
  apply andb_true_iff in Hc. destruct Hc as [Hlo Hhi].
  apply Z.leb_le in Hlo. apply Z.leb_le in Hhi.
  assert (Hall : forallb (fun '(lo, hi) =>
                            ((lo =? 48) && (hi =? 57)) || (178 <=? lo))
                         Pdu.digit_ranges = true) by (vm_compute; reflexivity).
  rewrite forallb_forall in Hall. specialize (Hall _ Hin). cbn in Hall.
  apply orb_true_iff in Hall. destruct Hall as [H | H].
  - apply andb_true_iff in H. destruct H as [H1 H2].
    apply Z.eqb_eq in H1. apply Z.eqb_eq in H2. subst. left.
    unfold Spec.ascii_digit. apply andb_true_iff.
    split; apply Z.leb_le; lia.
  - apply Z.leb_le in H. right. lia.
Qed.

(** What the filter keeps and is no ASCII digit is no hexadecimal digit. *)
Lemma kept_not_hex (c : Z) :
  Pdu.isdigit c || (c =? Pdu.plus_sign) = true ->
  Spec.ascii_digit c = false ->
  Pdu.hex_value c = None.
Proof.
  intros Hkept Hnot. apply orb_true_iff in Hkept.
  assert (Hc : c = 43 \/ 178 <= c).
  { destruct Hkept as [H | H].
    - apply isdigit_cases in H. destruct H as [H | H]; [congruence | auto].
    - apply Z.eqb_eq in H. now left. }
  unfold Pdu.hex_value.
  destruct Hc as [-> | Hc]; [reflexivity|].
  repeat match goal with
         | |- context [?a <=? ?b] =>
             let E := fresh in destruct (a <=? b) eqn:E;
             [apply Z.leb_le in E | apply Z.leb_gt in E]
         end; cbn [andb]; trivial; lia.
Qed.

Lemma fromhex_some (s : pystr) :
  forall bs, Pdu.fromhex s = Some bs ->
             Forall (fun c => Pdu.hex_value c <> None) s.
Proof.
  induction s as [| a | a b s IH] using list_pair_ind; intros bs;
    cbn [Pdu.fromhex].
  - constructor.
  - discriminate.
  - destruct (Pdu.hex_value a) eqn:Ha; [| discriminate].
    destruct (Pdu.hex_value b) eqn:Hb; [| discriminate].
    destruct (Pdu.fromhex s) eqn:Hs; [| discriminate].
    intros _. repeat constructor; try congruence. eapply IH. reflexivity.
Qed.

Lemma padded_cons2 (a b : Z) (phone : pystr) :
  Pdu.padded (a :: b :: phone) = a :: b :: Pdu.padded phone.
Proof.
  unfold Pdu.padded. rewrite len_cons2_mod.
  destruct (len phone mod 2 =? 0); reflexivity.
Qed.

Lemma In_swap_pairs_padded (c : Z) (phone : pystr) :
  In c phone -> In c (Pdu.swap_pairs (Pdu.padded phone)).
Proof.
  induction phone as [| a | a b phone IH] using list_pair_ind.
  - contradiction.
  - intros [-> | []]. cbn. auto.
  - rewrite padded_cons2. cbn [Pdu.swap_pairs].
    intros [-> | [-> | Hin]]; [right; now left | now left |].
    right. right. auto.
Qed.

Lemma skipn_1_In {A} (x : A) (l : list A) : In x (skipn 1 l) -> In x l.
Proof. destruct l; cbn; auto. Qed.

(** The result of [encode_phone_number] in one equation: [kept] is what the
    filter leaves, [rest] is [kept] without a [+] in front. *)
Lemma encode_phone_number_eq (phone : pystr) :
  let kept :=
    filter (fun c => Pdu.isdigit c || (c =? Pdu.plus_sign)) phone in
  let plus := startswith kept [Pdu.plus_sign] in
  let rest := if plus then skipn 1 kept else kept in
  Pdu.encode_phone_number phone
  = if forallb Spec.ascii_digit rest
    then Some (if plus then 0x91 else 0x81, Spec.semi_octets rest)
    else None.
Proof.
  intros kept plus rest.
  assert (Hrest : forall c, In c rest ->
            Pdu.isdigit c || (c =? Pdu.plus_sign) = true).
  { intros c Hc.
    assert (Hk : In c kept).
    { subst rest. destruct plus; [now apply skipn_1_In | trivial]. }
    subst kept. apply filter_In in Hk. apply Hk. }
  assert (Hcode :
    Pdu.encode_phone_number phone
    = match Pdu.fromhex (Pdu.swap_pairs (Pdu.padded rest)) with
      | Some bs => Some (if plus then 0x91 else 0x81, bs)
      | None => None
      end).
  { unfold Pdu.encode_phone_number. fold kept. fold plus.
    subst rest. destruct plus; reflexivity. }
  rewrite Hcode.
  destruct (forallb Spec.ascii_digit rest) eqn:Hd.
  - pose proof (fromhex_swap_pairs rest Hd) as Hhex.
    fold (Pdu.padded rest) in Hhex. now rewrite Hhex.
  - destruct (Pdu.fromhex (Pdu.swap_pairs (Pdu.padded rest))) as [bs |] eqn:Hf;
      trivial.
    exfalso. apply forallb_false_exists in Hd. destruct Hd as (c & Hc & Hnot).
    apply fromhex_some in Hf. rewrite Forall_forall in Hf.
    apply (Hf c (In_swap_pairs_padded c rest Hc)).
    apply kept_not_hex; auto.
Qed.

(** X10.  [encode_phone_number] raises exactly when, after the filter and
    without a [+] in front, a character is left that is no ASCII digit (a
    further [+], or a digit of another script); otherwise it returns the
    type-of-number for the [+] and the semi-octets of the digits. *)
Theorem encode_phone_number_result (phone : pystr) :
  let kept :=
    filter (fun c => Pdu.isdigit c || (c =? Pdu.plus_sign)) phone in
  let plus := startswith kept [Pdu.plus_sign] in
  let rest := if plus then skipn 1 kept else kept in
  (Pdu.encode_phone_number phone = None
   <-> exists c, In c rest /\ Spec.ascii_digit c = false)
  /\ (forallb Spec.ascii_digit rest = true ->
      Pdu.encode_phone_number phone
      = Some (if plus then 0x91 else 0x81, Spec.semi_octets rest)).
Proof.
  intros kept plus rest.
  pose proof (encode_phone_number_eq phone) as Heq.
  cbv zeta in Heq. fold kept plus rest in Heq. rewrite Heq.
  destruct (forallb Spec.ascii_digit rest) eqn:Hd.
  - split; [| trivial]. split; [discriminate|].
    intros (c & Hc & Hnot). rewrite forallb_forall in Hd.
    rewrite (Hd c Hc) in Hnot. discriminate.
  - split; [| discriminate]. split; trivial.
    intros _. now apply forallb_false_exists.
Qed.

Lemma encode_phone_number_result_witness :
  Pdu.encode_phone_number (lit "+94 (77) 123-456")
  = Some (0x91, Spec.semi_octets (lit "9477123456")).
Proof.
  apply (proj2 (encode_phone_number_result (lit "+94 (77) 123-456"))).
  by_computation.
Defined.

Lemma semi_octets_inj : forall d1 d2 : pystr,
  forallb Spec.ascii_digit d1 = true ->
  forallb Spec.ascii_digit d2 = true ->
  Spec.semi_octets d1 = Spec.semi_octets d2 ->
  d1 = d2.
Proof.
  assert (Hdig : forall c, Spec.ascii_digit c = true -> 48 <= c <= 57).
  { intros c Hc. unfold Spec.ascii_digit in Hc.
    apply andb_true_iff in Hc. destruct Hc as [H1 H2].
    apply Z.leb_le in H1. apply Z.leb_le in H2. lia. }
  assert (Hcons : forall c d, forallb Spec.ascii_digit (c :: d) = true ->
            48 <= c <= 57 /\ forallb Spec.ascii_digit d = true).
  { intros c d H. cbn [forallb] in H. apply andb_true_iff in H.
    destruct H as [Hc Hd]. auto. }
  induction d1 as [| a | a b d1 IH] using list_pair_ind;
    intros d2 H1 H2 Heq.
  - destruct d2 as [| a2 [| b2 d2]]; trivial; discriminate.
  - apply Hcons in H1. destruct H1 as [Ha _].
    destruct d2 as [| a2 [| b2 d2]]; try discriminate.
    + apply (f_equal (hd 0)) in Heq. cbn [Spec.semi_octets hd] in Heq.
      f_equal. lia.
    + apply Hcons in H2. destruct H2 as [Ha2 H2].
      apply Hcons in H2. destruct H2 as [Hb2 _].
      apply (f_equal (hd 0)) in Heq. cbn [Spec.semi_octets hd] in Heq. lia.
  - apply Hcons in H1. destruct H1 as [Ha H1].
    apply Hcons in H1. destruct H1 as [Hb H1].
    destruct d2 as [| a2 [| b2 d2]]; try discriminate.
    + apply Hcons in H2. destruct H2 as [Ha2 _].
      apply (f_equal (hd 0)) in Heq. cbn [Spec.semi_octets hd] in Heq. lia.
    + apply Hcons in H2. destruct H2 as [Ha2 H2].
      apply Hcons in H2. destruct H2 as [Hb2 H2].
      assert (Hhd := f_equal (hd 0) Heq).
      assert (Htl := f_equal (@tl Z) Heq).
      cbn [Spec.semi_octets hd tl] in Hhd, Htl.
      assert (a = a2 /\ b = b2) as [-> ->] by lia.
      f_equal. f_equal. now apply IH.
Qed.

Lemma startswith_plus_kept (kept : pystr) :
  startswith kept [Pdu.plus_sign] = true ->
  kept = Pdu.plus_sign :: skipn 1 kept.
Proof.
  destruct kept as [| c kept]; cbn [startswith skipn]; [discriminate|].
  intros H. apply andb_true_iff in H. destruct H as [H _].
  apply Z.eqb_eq in H. now subst.
Qed.

(** X11.  Two arguments that [encode_phone_number] encodes to the same
    result have the same digits and the same [+] after the filter: the
    encoding loses nothing but the stripped characters. *)
Theorem encode_phone_number_injective (phone1 phone2 : pystr)
    (result : Z * list Z) :
  Pdu.encode_phone_number phone1 = Some result ->
  Pdu.encode_phone_number phone2 = Some result ->
  filter (fun c => Pdu.isdigit c || (c =? Pdu.plus_sign)) phone1
  = filter (fun c => Pdu.isdigit c || (c =? Pdu.plus_sign)) phone2.
Proof.
  rewrite (encode_phone_number_eq phone1), (encode_phone_number_eq phone2).
  cbv zeta.
  set (kept1 := filter _ phone1). set (kept2 := filter _ phone2).
  destruct (forallb Spec.ascii_digit
              (if startswith kept1 [Pdu.plus_sign]
               then skipn 1 kept1 else kept1)) eqn:Hd1; [| discriminate].
  destruct (forallb Spec.ascii_digit
              (if startswith kept2 [Pdu.plus_sign]
               then skipn 1 kept2 else kept2)) eqn:Hd2; [| discriminate].
  intros H1 H2. rewrite <- H2 in H1. clear H2.
  injection H1 as Hton Hsemi.
  apply (semi_octets_inj _ _ Hd1 Hd2) in Hsemi.
  destruct (startswith kept1 [Pdu.plus_sign]) eqn:Hp1;
    destruct (startswith kept2 [Pdu.plus_sign]) eqn:Hp2;
    try discriminate; trivial.
  rewrite (startswith_plus_kept kept1 Hp1), (startswith_plus_kept kept2 Hp2).
  now rewrite Hsemi.
Qed.

Lemma encode_phone_number_injective_witness :
  filter (fun c => Pdu.isdigit c || (c =? Pdu.plus_sign)) (lit "+94 77-1")
  = filter (fun c => Pdu.isdigit c || (c =? Pdu.plus_sign)) (lit "(+9)4771").
Proof.
  apply (@encode_phone_number_injective (lit "+94 77-1") (lit "(+9)4771")
           (0x91, [0x49; 0x77; 0xF1])); by_computation.
Defined.

Lemma semi_octets_shape (digits : pystr) :
  forallb Spec.ascii_digit digits = true ->
  Forall Pdu.octet (Spec.semi_octets digits)
  /\ 2 * len (Spec.semi_octets digits) = len digits + len digits mod 2.
Proof.
  assert (Hcons : forall c d, forallb Spec.ascii_digit (c :: d) = true ->
            48 <= c <= 57 /\ forallb Spec.ascii_digit d = true).
  { intros c d H. cbn [forallb] in H. apply andb_true_iff in H.
    destruct H as [Hc Hd]. split; trivial.
    unfold Spec.ascii_digit in Hc. apply andb_true_iff in Hc.
    destruct Hc as [H1 H2]. apply Z.leb_le in H1. apply Z.leb_le in H2. lia. }
  induction digits as [| a | a b digits IH] using list_pair_ind; intros Hd.
  - split; [constructor | reflexivity].
  - apply Hcons in Hd. destruct Hd as [Ha _].
    split; [| reflexivity].
    cbn [Spec.semi_octets]. constructor; [unfold Pdu.octet; lia | constructor].
  - apply Hcons in Hd. destruct Hd as [Ha Hd].
    apply Hcons in Hd. destruct Hd as [Hb Hd].
    destruct (IH Hd) as [Hoct Hlen]. cbn [Spec.semi_octets]. split.
    + constructor; [unfold Pdu.octet; lia | trivial].
    + rewrite len_cons2_mod. unfold len in *. cbn [length]. lia.
Qed.

(** X12.  When [encode_phone_number] returns, the type-of-number is [0x91]
    or [0x81], every encoded value is in the range 0..255, and there is one
    octet for every two digits, rounded up. *)
Theorem encode_phone_number_octets (phone : pystr) (ton : Z)
    (phone_encoded : list Z) :
  let kept :=
    filter (fun c => Pdu.isdigit c || (c =? Pdu.plus_sign)) phone in
  let plus := startswith kept [Pdu.plus_sign] in
  let rest := if plus then skipn 1 kept else kept in
  Pdu.encode_phone_number phone = Some (ton, phone_encoded) ->
  ton = (if plus then 0x91 else 0x81)
  /\ Forall Pdu.octet phone_encoded
  /\ len phone_encoded = (len rest + 1) / 2.
Proof.
  intros kept plus rest.
  pose proof (encode_phone_number_eq phone) as Heq.
  cbv zeta in Heq. fold kept plus rest in Heq. rewrite Heq.
  destruct (forallb Spec.ascii_digit rest) eqn:Hd; [| discriminate].
  intros H.
  assert (Hton : ton = if plus then 0x91 else 0x81) by congruence.
  assert (Hbs : phone_encoded = Spec.semi_octets rest) by congruence.
  destruct (semi_octets_shape rest Hd) as [Hoct Hlen].
  rewrite Hbs. repeat split; trivial.
  pose proof (Z.mod_pos_bound (len rest) 2).
  pose proof (Z.div_mod (len rest + 1) 2).
  pose proof (Z.mod_pos_bound (len rest + 1) 2).
  pose proof (Z.div_mod (len rest) 2).
  assert (Hpar : (len rest + 1) mod 2 = 1 - len rest mod 2).
  { rewrite Z.add_mod by lia.
    destruct (Z.eq_dec (len rest mod 2) 0) as [E | E];
      [rewrite E; reflexivity|].
    assert (E1 : len rest mod 2 = 1) by lia. rewrite E1. reflexivity. }
  lia.
Qed.

Lemma encode_phone_number_octets_witness :
  0x91 = 0x91
  /\ Forall Pdu.octet [0x21; 0x43; 0x65; 0xF7]
  /\ len [0x21; 0x43; 0x65; 0xF7] = (len (lit "1234567") + 1) / 2.
Proof.
  apply (@encode_phone_number_octets (lit "+1234567") 0x91
           [0x21; 0x43; 0x65; 0xF7]).
  by_computation.
Defined.

Lemma remove_plus_split (phone : pystr) :
  len (Pdu.remove_plus phone)
  = len (Pdu.remove_plus
           (filter (fun c => Pdu.isdigit c || (c =? Pdu.plus_sign)) phone))
    + len (filter (fun c => negb (Pdu.isdigit c || (c =? Pdu.plus_sign)))
                  phone).
Proof.
  unfold len, Pdu.remove_plus.
  induction phone as [| c phone IH]; [reflexivity|].
  cbn [filter]. destruct (Pdu.isdigit c); destruct (c =? Pdu.plus_sign) eqn:E;
    cbn [orb negb filter length]; rewrite ?E; cbn [negb length]; lia.
Qed.

Lemma remove_plus_digits (digits : pystr) :
  forallb Spec.ascii_digit digits = true ->
  Pdu.remove_plus digits = digits.
Proof.
  unfold Pdu.remove_plus.
  induction digits as [| c digits IH]; intros Hd; [reflexivity|].
  cbn [forallb] in Hd. apply andb_true_iff in Hd. destruct Hd as [Hc Hd].
  cbn [filter].
  assert (E : (c =? Pdu.plus_sign) = false).
  { unfold Spec.ascii_digit in Hc. apply andb_true_iff in Hc.
    destruct Hc as [H1 _]. apply Z.leb_le in H1.
    apply Z.eqb_neq. unfold Pdu.plus_sign. lia. }
  rewrite E. cbn [negb]. now rewrite (IH Hd).
Qed.

(** X13.  The destination-address length that [create_pdu] writes is
    [len(phone.replace('+', ''))], taken from the argument as given: when the
    number can be encoded, it is the number of encoded digits plus the number
    of characters that the filter of [encode_phone_number] stripped.  It is
    the digit count only for an argument made of digits and [+]. *)
Theorem address_length_counts_stripped (phone : pystr) (result : Z * list Z) :
  let keep := fun c => Pdu.isdigit c || (c =? Pdu.plus_sign) in
  let kept := filter keep phone in
  let rest := if startswith kept [Pdu.plus_sign] then skipn 1 kept else kept in
  Pdu.encode_phone_number phone = Some result ->
  len (Pdu.remove_plus phone)
  = len rest + len (filter (fun c => negb (keep c)) phone).
Proof.
  intros keep kept rest.
  pose proof (encode_phone_number_eq phone) as Heq.
  cbv zeta in Heq. fold keep kept rest in Heq. rewrite Heq.
  destruct (forallb Spec.ascii_digit rest) eqn:Hd; [| discriminate].
  intros _. rewrite remove_plus_split. fold keep kept. f_equal.
  assert (Hk : Pdu.remove_plus kept = rest).
  { subst rest.
    destruct (startswith kept [Pdu.plus_sign]) eqn:Hp.
    - rewrite (startswith_plus_kept kept Hp) at 1.
      unfold Pdu.remove_plus at 1. cbn [filter].
      rewrite Z.eqb_refl. cbn [negb].
      now apply remove_plus_digits.
    - now apply remove_plus_digits. }
  now rewrite Hk.
Qed.

Lemma address_length_counts_stripped_witness :
  len (Pdu.remove_plus (lit "+94 (77) 123-456"))
  = len (lit "9477123456") + len (lit " () -").
Proof.
  apply (@address_length_counts_stripped (lit "+94 (77) 123-456")
           (0x91, Spec.semi_octets (lit "9477123456"))).
  by_computation.
Defined.

(** ** lib/pdu.py: the hexadecimal string *)

(** The two digits of an octet, checked on all 256 values. *)
Lemma format_02X_octet (b : Z) :
  Pdu.octet b ->
  exists x y,
    Pdu.format_02X b = [x; y]
    /\ Pdu.hex_value x = Some (b / 16)
    /\ Pdu.hex_value y = Some (b mod 16).
Proof.
  intros Hb.
  set (check := fun b =>
    match Pdu.format_02X b with
    | [x; y] =>
        match Pdu.hex_value x, Pdu.hex_value y with
        | Some h, Some l => (h =? b / 16) && (l =? b mod 16)
        | _, _ => false
        end
    | _ => false
    end).
  assert (Hall : forallb check (map Z.of_nat (seq 0 256)) = true)
    by (vm_compute; reflexivity).
  rewrite forallb_forall in Hall.
  assert (Hin : In b (map Z.of_nat (seq 0 256))).
  { unfold Pdu.octet in Hb. apply in_map_iff. exists (Z.to_nat b).
    split; [lia | apply in_seq; lia]. }
  specialize (Hall b Hin). subst check. cbv beta in Hall.
  destruct (Pdu.format_02X b) as [| x [| y [| z l]]]; try discriminate.
  destruct (Pdu.hex_value x) as [h |] eqn:Hx; [| discriminate].
  destruct (Pdu.hex_value y) as [l |] eqn:Hy; [| discriminate].
  apply andb_true_iff in Hall. destruct Hall as [Hh Hl].
  apply Z.eqb_eq in Hh. apply Z.eqb_eq in Hl.
  exists x, y. rewrite Hx, Hy, Hh, Hl. repeat split; reflexivity.
Qed.

Lemma fromhex_format (octets : list Z) :
  Forall Pdu.octet octets ->
  Pdu.fromhex (concat (map Pdu.format_02X octets)) = Some octets
  /\ len (concat (map Pdu.format_02X octets)) = 2 * len octets.
Proof.
  unfold len. induction octets as [| b octets IH]; intros Hoct.
  - split; reflexivity.
  - inversion Hoct as [| ? ? Hb Hrest]; subst.
    destruct (IH Hrest) as [Hhex Hlen].
    destruct (format_02X_octet Hb) as (x & y & Hf & Hx & Hy).
    cbn [map concat]. rewrite Hf. cbn [app Pdu.fromhex length].
    rewrite Hx, Hy, Hhex. split; [| lia].
    do 2 f_equal. pose proof (Z.div_mod b 16). lia.
Qed.

(** X14.  When every element of the list [pdu] that [create_pdu] builds is
    in the range 0..255, the string it returns has two hexadecimal digits per
    element, reads back with [bytes.fromhex] as that list, and its length
    agrees with the returned TPDU length: [len(pdu_hex) = 2 * (tpdu_len + 1)]. *)
Theorem create_pdu_hex_reads_back (phone text : pystr)
    (ref_num part_num total_parts : Z) (pdu : list Z) :
  Pdu.create_pdu_octets phone text ref_num part_num total_parts = Some pdu ->
  Forall Pdu.octet pdu ->
  exists pdu_hex tpdu_len,
    Pdu.create_pdu phone text ref_num part_num total_parts
      = Some (pdu_hex, tpdu_len)
    /\ tpdu_len = len pdu - 1
    /\ len pdu_hex = 2 * (tpdu_len + 1)
    /\ Pdu.fromhex pdu_hex = Some pdu.
Proof.
  intros Hpdu Hoct. unfold Pdu.create_pdu. rewrite Hpdu.
  destruct (fromhex_format Hoct) as [Hhex Hlen].
  eexists. eexists. split; [reflexivity|].
  split; [reflexivity|]. split; [rewrite Hlen; lia | exact Hhex].
Qed.

Lemma create_pdu_hex_reads_back_witness :
  exists pdu_hex tpdu_len,
    Pdu.create_pdu (lit "+1234567") (lit "hello") 7 1 2
      = Some (pdu_hex, tpdu_len)
    /\ tpdu_len
       = len ([0x00; 0x41; 0x00; 7; 0x91; 0x21; 0x43; 0x65; 0xF7; 0x00; 0x00;
               12; 6; 0x00; 0x03; 7; 2; 1]
              ++ Pdu.encode_gsm7 (lit "hello")) - 1
    /\ len pdu_hex = 2 * (tpdu_len + 1)
    /\ Pdu.fromhex pdu_hex
       = Some ([0x00; 0x41; 0x00; 7; 0x91; 0x21; 0x43; 0x65; 0xF7; 0x00; 0x00;
                12; 6; 0x00; 0x03; 7; 2; 1]
               ++ Pdu.encode_gsm7 (lit "hello")).
Proof.
  apply (@create_pdu_hex_reads_back (lit "+1234567") (lit "hello") 7 1 2).
  - by_computation.
  - vm_compute. repeat constructor; discriminate.
Defined.

(** ** lib/pdu.py: the UCS2 payload *)

Lemma utf16_unit_octets (u : Z) :
  0 <= u < 0x10000 -> Forall Pdu.octet (Pdu.utf16_unit u).
Proof.
  intros Hu. unfold Pdu.utf16_unit.
  constructor; [| constructor; [apply land_255_octet | constructor]].
  unfold Pdu.octet. rewrite Z.shiftr_div_pow2 by lia.
  change (2 ^ 8) with 256.
  pose proof (Z.div_mod u 256). pose proof (Z.mod_pos_bound u 256). lia.
Qed.


Lemma encode_utf16_be_some (text : pystr) :
  forall user_data,
    Pdu.encode_utf16_be text = Some user_data ->
    Forall Pdu.octet user_data
    /\ len user_data = 2 * len text + 2 * len (filter Pdu.astral text).
Proof.
  unfold len.
  induction text as [| c text IH]; intros user_data;
    cbn [Pdu.encode_utf16_be].
  - intros [= <-]. split; [constructor | reflexivity].
  - destruct ((c <? 0) || (0x10FFFF <? c)) eqn:Hrange; [discriminate|].
    apply orb_false_iff in Hrange. destruct Hrange as [H0 Hmax].
    apply Z.ltb_ge in H0. apply Z.ltb_ge in Hmax.
    destruct ((0xD800 <=? c) && (c <=? 0xDFFF)); [discriminate|].
    destruct (Pdu.encode_utf16_be text) as [bs |]; [| now destruct (c <? 0x10000)].
    destruct (IH bs eq_refl) as [Hoct Hlen].
    cbn [filter]. unfold Pdu.astral at 1.
    destruct (c <? 0x10000) eqn:Hbmp.
    + apply Z.ltb_lt in Hbmp.
      assert (Ha : (0x10000 <=? c) = false) by (apply Z.leb_gt; lia).
      rewrite Ha. intros H. assert (Hu : user_data = Pdu.utf16_unit c ++ bs)
        by congruence.
      rewrite Hu. split.
      * apply Forall_app. split; [apply utf16_unit_octets; lia | trivial].
      * rewrite length_app. cbn [Pdu.utf16_unit length]. lia.
    + apply Z.ltb_ge in Hbmp.
      assert (Ha : (0x10000 <=? c) = true) by (apply Z.leb_le; lia).
      rewrite Ha. intros H.
      assert (Hu : user_data
                   = (Pdu.utf16_unit (0xD800 + Z.shiftr (c - 0x10000) 10)
                      ++ Pdu.utf16_unit (0xDC00 + Z.land (c - 0x10000) 0x3FF))
                     ++ bs) by congruence.
      rewrite Hu. split.
      * apply Forall_app. split; trivial. apply Forall_app. split.
        -- apply utf16_unit_octets.
           rewrite Z.shiftr_div_pow2 by lia. change (2 ^ 10) with 1024.
           pose proof (Z.div_mod (c - 65536) 1024).
           pose proof (Z.mod_pos_bound (c - 65536) 1024). lia.
        -- apply utf16_unit_octets.
           change 0x3FF with (Z.ones 10). rewrite Z.land_ones by lia.
           change (2 ^ 10) with 1024.
           pose proof (Z.mod_pos_bound (c - 65536) 1024). lia.
      * rewrite !length_app. cbn [Pdu.utf16_unit length]. lia.
Qed.

Lemma encode_utf16_be_none (text : pystr) :
  Forall (fun c => 0 <= c <= 0x10FFFF) text ->
  (Pdu.encode_utf16_be text = None
   <-> exists c, In c text /\ Pdu.surrogate c = true).
Proof.
  induction text as [| c text IH]; intros Hvalid; cbn [Pdu.encode_utf16_be].
  - split; [discriminate | intros (c & [] & _)].
  - inversion Hvalid as [| ? ? Hc Hrest]; subst.
    specialize (IH Hrest).
    assert (Hrange : (c <? 0) || (0x10FFFF <? c) = false).
    { apply orb_false_iff. split; apply Z.ltb_ge; lia. }
    rewrite Hrange. fold (Pdu.surrogate c).
    destruct (Pdu.surrogate c) eqn:Hs.
    + split; trivial. intros _. exists c. split; [now left | trivial].
    + destruct (Pdu.encode_utf16_be text) as [bs |].
      * split; [now destruct (c <? 0x10000)|].
        intros (x & [-> | Hx] & Hsx); [congruence|].
        assert (Habs : Some bs = None) by (apply IH; eauto).
        discriminate.
      * split; [| now destruct (c <? 0x10000)].
        intros _. destruct (proj1 IH eq_refl) as (x & Hx & Hsx).
        exists x. split; [now right | trivial].
Qed.

(** ** lib/pdu.py: [create_pdu] as a whole *)

(** The list that [create_pdu] builds, with the padding worked out: the
    second encoding with padding is never taken. *)
Lemma create_pdu_octets_eq (phone text : pystr)
    (ref_num part_num total_parts : Z) :
  Pdu.create_pdu_octets phone text ref_num part_num total_parts
  = let gsm7 := Encoding.is_gsm7_compatible text in
    match (if gsm7 then Some (Pdu.encode_gsm7 text)
           else Pdu.encode_utf16_be text) with
    | None => None
    | Some user_data =>
        match Pdu.encode_phone_number phone with
        | None => None
        | Some (ton, phone_encoded) =>
            let udl := if gsm7 then len text else len user_data in
            Some ([0x00; if 1 <? total_parts then 0x41 else 0x01; 0x00;
                   len (Pdu.remove_plus phone); ton]
                  ++ phone_encoded
                  ++ [0x00; if gsm7 then 0x00 else 0x08]
                  ++ (if 1 <? total_parts
                      then [7 + udl; 6; 0x00; 0x03; Z.land ref_num 0xFF;
                            total_parts; part_num]
                      else [udl])
                  ++ user_data)
        end
    end.
Proof.
  unfold Pdu.create_pdu_octets. cbv zeta.
  destruct (Encoding.is_gsm7_compatible text).
  - destruct (Pdu.encode_phone_number phone) as [[ton enc] |]; trivial.
    destruct (1 <? total_parts); cbn [Z.eqb];
      [change (Pdu.padding_bits_of
                 (len [0; 3; Z.land ref_num 255; total_parts; part_num] + 1))
         with 0; cbn [Z.ltb Z.compare]|];
      rewrite <- !app_assoc; reflexivity.
  - destruct (Pdu.encode_utf16_be text) as [ud |]; trivial.
    destruct (Pdu.encode_phone_number phone) as [[ton enc] |]; trivial.
    destruct (1 <? total_parts); cbn [Z.eqb];
      rewrite <- !app_assoc; reflexivity.
Qed.

(** X15.  For a text of valid code points, [create_pdu] raises in exactly
    two cases: the number cannot be encoded, or the text is not
    GSM7-compatible and contains a surrogate code point.  It never raises on
    account of the reference number, the part numbers or the padding. *)
Theorem create_pdu_raises (phone text : pystr)
    (ref_num part_num total_parts : Z) :
  Forall (fun c => 0 <= c <= 0x10FFFF) text ->
  (Pdu.create_pdu phone text ref_num part_num total_parts = None
   <-> Pdu.encode_phone_number phone = None
       \/ (Encoding.is_gsm7_compatible text = false
           /\ exists c, In c text /\ Pdu.surrogate c = true)).
Proof.
  intros Hvalid. unfold Pdu.create_pdu. rewrite create_pdu_octets_eq.
  cbv zeta. pose proof (encode_utf16_be_none Hvalid) as Hutf.
  destruct (Encoding.is_gsm7_compatible text).
  - destruct (Pdu.encode_phone_number phone) as [[ton enc] |].
    + split; [discriminate|]. intros [H | [H _]]; discriminate.
    + split; auto.
  - destruct (Pdu.encode_utf16_be text) as [ud |].
    + destruct (Pdu.encode_phone_number phone) as [[ton enc] |].
      * split; [discriminate|]. intros [H | [_ H]]; [discriminate|].
        apply Hutf in H. discriminate.
      * split; auto.
    + split; trivial. intros _. right. split; trivial. now apply Hutf.
Qed.

Lemma create_pdu_raises_witness :
  Pdu.create_pdu (lit "+1234567") [0xD83D; 104; 105] 0 1 1 = None.
Proof.
  apply (@create_pdu_raises (lit "+1234567") [0xD83D; 104; 105] 0 1 1).
  - repeat constructor; by_computation.
  - right. split; [by_computation|]. exists 0xD83D.
    split; [now left | by_computation].
Defined.








(** X18.  For a text that is not GSM7-compatible, when [create_pdu] builds
    its list: the data coding scheme is 8, the payload is the UTF-16
    big-endian text, of two octets per character and two more for every
    character beyond the Basic Multilingual Plane, and the User-Data-Length
    is that number of octets, plus 7 when there are several parts. *)
Theorem create_pdu_ucs2_layout (phone text : pystr)
    (ref_num part_num total_parts : Z) (pdu : list Z) :
  Encoding.is_gsm7_compatible text = false ->
  Pdu.create_pdu_octets phone text ref_num part_num total_parts = Some pdu ->
  exists ton phone_encoded user_data,
    Pdu.encode_phone_number phone = Some (ton, phone_encoded)
    /\ Pdu.encode_utf16_be text = Some user_data
    /\ len user_data = 2 * len text + 2 * len (filter Pdu.astral text)
    /\ pdu = [0x00; if 1 <? total_parts then 0x41 else 0x01; 0x00;
              len (Pdu.remove_plus phone); ton]
             ++ phone_encoded
             ++ [0x00; 0x08]
             ++ (if 1 <? total_parts
                 then [7 + len user_data; 6; 0x00; 0x03;
                       Z.land ref_num 0xFF; total_parts; part_num]
                 else [len user_data])
             ++ user_data.
Proof.
  intros Hgsm. rewrite create_pdu_octets_eq. cbv zeta. rewrite Hgsm.
  destruct (Pdu.encode_utf16_be text) as [ud |] eqn:Hutf; [| discriminate].
  destruct (Pdu.encode_phone_number phone) as [[ton enc] |]; [| discriminate].
  intros Hpdu. exists ton, enc, ud.
  destruct (encode_utf16_be_some text Hutf) as [_ Hlen].
  repeat split; trivial. congruence.
Qed.

Lemma create_pdu_ucs2_layout_witness :
  exists ton phone_encoded user_data,
    Pdu.encode_phone_number (lit "12") = Some (ton, phone_encoded)
    /\ Pdu.encode_utf16_be [0x1F600; 8365] = Some user_data
    /\ len user_data
       = 2 * len [0x1F600; 8365] + 2 * len (filter Pdu.astral [0x1F600; 8365])
    /\ [0x00; 0x01; 0x00; 2; 0x81; 0x21; 0x00; 0x08; 6;
        0xD8; 0x3D; 0xDE; 0x00; 0x20; 0xAD]
       = [0x00; if 1 <? 1 then 0x41 else 0x01; 0x00;
          len (Pdu.remove_plus (lit "12")); ton]
         ++ phone_encoded
         ++ [0x00; 0x08]
         ++ (if 1 <? 1
             then [7 + len user_data; 6; 0x00; 0x03; Z.land 0 0xFF; 1; 1]
             else [len user_data])
         ++ user_data.
Proof.
  apply (@create_pdu_ucs2_layout (lit "12") [0x1F600; 8365] 0 1 1);
    by_computation.
Defined.

(** ** lib/database.py: the response checks on the response as received *)

Lemma upper_app (a b : pystr) : upper (a ++ b) = upper a ++ upper b.
Proof. unfold upper. apply flat_map_app. Qed.

Lemma contains_upper (s p : pystr) :
  contains s p = true -> contains (upper s) (upper p) = true.
Proof.
  rewrite !contains_app. intros (l1 & l2 & ->).
  exists (upper l1), (upper l2). now rewrite !upper_app.
Qed.

Lemma lstrip_keeps (c : Z) (r : pystr) :
  isspace c = false ->
  forall l, exists l', lstrip (l ++ c :: r) = l' ++ c :: r.
Proof.
  intros Hc. induction l as [| x l IH]; cbn [app lstrip].
  - exists []. now rewrite Hc.
  - destruct (isspace x); [exact IH|]. now exists (x :: l).
Qed.

(** Trimming leaves in place a piece that starts and ends with characters
    that are no white space. *)
Lemma strip_keeps (a b : Z) (q l1 l2 : pystr) :
  isspace a = false -> isspace b = false ->
  exists l1' l2',
    strip (l1 ++ (a :: q ++ [b]) ++ l2) = l1' ++ (a :: q ++ [b]) ++ l2'.
Proof.
  intros Ha Hb. unfold strip.
  destruct (@lstrip_keeps a (q ++ [b] ++ l2) Ha l1) as [l1' H1].
  replace (l1 ++ (a :: q ++ [b]) ++ l2) with (l1 ++ a :: q ++ [b] ++ l2)
    by (cbn [app]; now rewrite <- !app_assoc).
  rewrite H1.
  replace (rev (l1' ++ a :: q ++ [b] ++ l2))
    with (rev l2 ++ b :: rev (l1' ++ a :: q)).
  2:{ replace (l1' ++ a :: q ++ [b] ++ l2) with ((l1' ++ a :: q) ++ [b] ++ l2)
        by (now rewrite <- !app_assoc).
      rewrite !rev_app_distr. cbn [rev app]. now rewrite <- !app_assoc. }
  destruct (@lstrip_keeps b (rev (l1' ++ a :: q)) Hb (rev l2)) as [l2' H2].
  rewrite H2. exists l1', (rev l2').
  rewrite rev_app_distr. cbn [rev]. rewrite rev_involutive.
  cbn [app]. now rewrite <- !app_assoc.
Qed.

Lemma contains_strip (a b : Z) (q s : pystr) :
  isspace a = false -> isspace b = false ->
  contains s (a :: q ++ [b]) = true ->
  contains (strip s) (a :: q ++ [b]) = true.
Proof.
  intros Ha Hb. rewrite !contains_app. intros (l1 & l2 & ->).
  destruct (@strip_keeps a b q l1 l2 Ha Hb) as (l1' & l2' & H).
  exists l1', l2'. exact H.
Qed.

(** A token of the modem, found in the response as received, is found by the
    checks, which read the response trimmed and in upper case. *)
Lemma token_in_clean (resp : pystr) :
  (contains resp (lit "ERROR") = true ->
   contains (upper (strip resp)) (lit "ERROR") = true)
  /\ (contains resp (lit "+CMGS:") = true ->
      contains (upper (strip resp)) (lit "+CMGS:") = true).
Proof.
  split; intros H.
  - change (lit "ERROR") with (upper (69 :: [82; 82; 79] ++ [82])).
    apply contains_upper.
    apply contains_strip; [reflexivity | reflexivity | exact H].
  - change (lit "+CMGS:") with (upper (43 :: [67; 77; 71; 83] ++ [58])).
    apply contains_upper.
    apply contains_strip; [reflexivity | reflexivity | exact H].
Qed.

(** X20.  A response in which [ERROR] occurs is a failed attempt, whatever
    else it contains ([+CMGS:] and [OK] included); the error text is the
    trimmed response, cut to 255 characters. *)
Theorem error_token_means_failure (resp : pystr) (modem_timeout : Z) :
  contains resp (lit "ERROR") = true ->
  Database.classify_response resp modem_timeout
  = (false, Some (prefix 255 (strip resp))).
Proof.
  intros H. apply (proj1 (token_in_clean resp)) in H.
  rewrite classify_response_eq. cbv zeta. now rewrite H.
Qed.

Lemma error_token_means_failure_witness :
  Database.classify_response (lit "+CMGS: 12 OK +CMS ERROR: 500 ") 30
  = (false, Some (prefix 255 (strip (lit "+CMGS: 12 OK +CMS ERROR: 500 ")))).
Proof.
  apply (@error_token_means_failure (lit "+CMGS: 12 OK +CMS ERROR: 500 ") 30).
  by_computation.
Defined.

(** The trimmed response is a piece of the response. *)
Lemma lstrip_suffix (s : pystr) : exists a, s = a ++ lstrip s.
Proof.
  induction s as [| c s [a IH]]; cbn [lstrip]; [now exists []|].
  destruct (isspace c).
  - exists (c :: a). cbn [app]. now rewrite <- IH.
  - now exists [].
Qed.

Lemma strip_piece (s : pystr) : exists a b, s = a ++ strip s ++ b.
Proof.
  unfold strip.
  destruct (lstrip_suffix s) as [a Ha].
  destruct (lstrip_suffix (rev (lstrip s))) as [b Hb].
  exists a, (rev b).
  rewrite <- rev_app_distr, <- Hb, rev_involutive. exact Ha.
Qed.

(** X21.  A response that contains [+CMGS:] and, in no letter case,
    [ERROR], is a success. *)
Theorem cmgs_without_error_is_success (resp : pystr) (modem_timeout : Z) :
  contains resp (lit "+CMGS:") = true ->
  contains (upper resp) (lit "ERROR") = false ->
  Database.classify_response resp modem_timeout = (true, None).
Proof.
  intros Hcmgs Herr. apply (proj2 (token_in_clean resp)) in Hcmgs.
  rewrite classify_response_eq. cbv zeta.
  destruct (contains (upper (strip resp)) (lit "ERROR")) eqn:He.
  - exfalso. apply contains_app in He. destruct He as (l1 & l2 & He).
    destruct (strip_piece resp) as (a & b & Hs).
    assert (Hc : contains (upper resp) (lit "ERROR") = true).
    { apply contains_app. rewrite Hs, !upper_app, He.
      exists (upper a ++ l1), (l2 ++ upper b). now rewrite <- !app_assoc. }
    congruence.
  - now rewrite Hcmgs.
Qed.

Lemma cmgs_without_error_is_success_witness :
  Database.classify_response (lit "  +CMGS: 12  ") 30 = (true, None).
Proof.
  apply (@cmgs_without_error_is_success (lit "  +CMGS: 12  ") 30);
    by_computation.
Defined.

(** X22.  A response that is empty, or white space only, is a failed attempt
    with the time-out text. *)
Theorem blank_response_is_timeout (resp : pystr) (modem_timeout : Z) :
  strip resp = [] ->
  Database.classify_response resp modem_timeout
  = (false, Some (lit "No response from modem (timeout after "
                    ++ str_of_int modem_timeout ++ lit "s)")).
Proof.
  intros H. rewrite classify_response_eq. cbv zeta. rewrite H. reflexivity.
Qed.

Lemma blank_response_is_timeout_witness :
  Database.classify_response [13; 10; 32] 30
  = (false, Some (lit "No response from modem (timeout after "
                    ++ str_of_int 30 ++ lit "s)")).
Proof.
  apply (@blank_response_is_timeout [13; 10; 32] 30). by_computation.
Defined.

(** X23.  A response that is, white space apart, just [OK] is a failed
    attempt: it is not longer than 2 characters, and is reported as
    ambiguous. *)
Theorem bare_ok_is_ambiguous (resp : pystr) (modem_timeout : Z) :
  strip resp = lit "OK" ->
  Database.classify_response resp modem_timeout
  = (false, Some (lit "Ambiguous modem response: OK")).
Proof.
  intros H. rewrite classify_response_eq. cbv zeta. rewrite H.
  vm_compute. reflexivity.
Qed.

Lemma bare_ok_is_ambiguous_witness :
  Database.classify_response ([13; 10] ++ lit "OK" ++ [13; 10]) 30
  = (false, Some (lit "Ambiguous modem response: OK")).
Proof.
  apply (@bare_ok_is_ambiguous ([13; 10] ++ lit "OK" ++ [13; 10]) 30).
  by_computation.
Defined.

(** ** lib/modem.py: the read loop of [send_sms_pdu] *)

Lemma delivered_cons (p : Modem.poll) (polls : list Modem.poll) :
  Modem.delivered (p :: polls)
  = match Modem.waiting p with
    | Some chunk => chunk :: Modem.delivered polls
    | None => Modem.delivered polls
    end.
Proof.
  unfold Modem.delivered. cbn [flat_map].
  now destruct (Modem.waiting p).
Qed.

(** A text lets the loop go on, shows a success or shows an error, and only
    one of the three. *)
Lemma keeps_reading_not_success (full_response : pystr) :
  Modem.keeps_reading full_response ->
  ~ Modem.success_seen full_response /\ ~ Modem.error_seen full_response.
Proof.
  unfold Modem.keeps_reading, Modem.success_seen, Modem.error_seen.
  intros [Hc [[Hok Hn] | [Hok [He Hcms]]]]; split.
  - intros [H | [_ H]]; [congruence | lia].
  - intros (_ & H & _). congruence.
  - intros [H | [H _]]; congruence.
  - intros (_ & _ & [H | H]); congruence.
Qed.

(** A pass that goes on does not leave the loop: the pass at which the loop
    is left is the first one that does not go on. *)
Lemma goes_on_not_leaves (response_parts : list pystr) (p : Modem.poll)
    (result : list pystr) :
  Modem.goes_on response_parts p ->
  ~ Modem.leaves_with response_parts p result.
Proof.
  unfold Modem.goes_on, Modem.leaves_with.
  intros [Hb Hgo] [[Hb' _] | [_ Hleave]]; [congruence|].
  destruct (Modem.waiting p) as [chunk |].
  - apply keeps_reading_not_success in Hgo. destruct Hgo as [Hs He].
    destruct Hleave as [[H _] | [H _]]; auto.
  - destruct Hleave as (Hne & Hidle & _).
    destruct Hgo as [H | H]; congruence.
Qed.

(** The loop from any state, pass by pass.  [got_any_data] is set exactly
    when a chunk has been read, and [got_success] is never set when a pass
    begins, since the loop is left where it is set. *)
Lemma read_loop_passes :
  forall polls response_parts,
  exists k : nat,
    (forall j p,
       (j < k)%nat -> nth_error polls j = Some p ->
       Modem.goes_on (response_parts ++ Modem.delivered (firstn j polls)) p)
    /\ match nth_error polls k with
       | Some p =>
           Modem.leaves_with
             (response_parts ++ Modem.delivered (firstn k polls)) p
             (Modem.read_loop polls response_parts
                (match response_parts with [] => false | _ :: _ => true end)
                false)
       | None =>
           k = length polls
           /\ Modem.read_loop polls response_parts
                (match response_parts with [] => false | _ :: _ => true end)
                false
              = response_parts ++ Modem.delivered polls
       end.
Proof.
  induction polls as [| p rest IH]; intros parts.
  - exists 0%nat. split; [intros j p Hj; lia|].
    cbn [nth_error Modem.read_loop Modem.delivered flat_map length].
    now rewrite app_nil_r.
  - remember (Modem.read_loop (p :: rest) parts
                (match parts with [] => false | _ :: _ => true end) false)
      as out eqn:Hout.
    match goal with |- ?g => set (G := g) end.
    (* the pass leaves the loop *)
    assert (Hleave : Modem.leaves_with parts p out -> G).
    { intros H. exists 0%nat. split; [intros j p0 Hj; lia|].
      cbn [nth_error firstn Modem.delivered flat_map].
      now rewrite app_nil_r. }
    (* the pass goes on, with [parts'] read after it *)
    assert (Hnext : forall parts',
      Modem.goes_on parts p ->
      parts' = parts ++ Modem.delivered [p] ->
      out = Modem.read_loop rest parts'
              (match parts' with [] => false | _ :: _ => true end) false ->
      G).
    { intros parts' Hgo Hparts Heq.
      destruct (IH parts') as (k & Hbefore & Hat).
      assert (Hshift : forall l,
                parts ++ Modem.delivered (p :: l)
                = parts' ++ Modem.delivered l).
      { intros l. rewrite Hparts, <- app_assoc. f_equal.
        unfold Modem.delivered. cbn [flat_map]. now rewrite app_nil_r. }
      exists (S k). split.
      - intros [| j] p0 Hj Hnth; cbn [nth_error firstn] in *.
        + assert (Hp : p0 = p) by congruence. rewrite Hp.
          cbn [Modem.delivered flat_map]. now rewrite app_nil_r.
        + rewrite Hshift. apply Hbefore; [lia | exact Hnth].
      - cbn [nth_error firstn length]. rewrite Heq.
        destruct (nth_error rest k) as [p0 |].
        + now rewrite Hshift.
        + destruct Hat as [Hk Hres]. split; [now rewrite Hk|].
          now rewrite Hshift. }
    clearbody G. clear IH.
    cbn [Modem.read_loop] in Hout.
    unfold Modem.leaves_with in Hleave.
    unfold Modem.goes_on, Modem.delivered in Hnext.
    cbn [flat_map] in Hnext.
    destruct (Modem.before_deadline p); cbn [negb] in Hout;
      [| apply Hleave; left; auto].
    destruct (Modem.waiting p) as [chunk |].
    + (* a chunk was read *)
      cbv zeta in Hout. cbn [app] in Hnext.
      set (full := concat (parts ++ [chunk])) in *.
      assert (Hany : match parts ++ [chunk] with
                     | [] => false
                     | _ :: _ => true
                     end = true) by now destruct parts.
      destruct (contains full (lit "+CMGS:")) eqn:Hc.
      { apply Hleave. right. split; trivial. left. split; trivial.
        now left. }
      destruct (contains full (lit "OK")) eqn:Hok; cbn [negb andb] in Hout.
      * destruct (1 <=? Modem.ok_count full) eqn:Hn.
        -- apply Hleave. right. split; trivial. left. split; trivial.
           right. split; trivial. now apply Z.leb_le.
        -- assert (Hkeep : Modem.keeps_reading full).
           { split; trivial. left. split; trivial.
             apply Z.leb_gt in Hn. lia. }
           apply (Hnext (parts ++ [chunk])); auto. now rewrite Hany.
      * destruct (contains full (lit "ERROR")) eqn:He; cbn [orb] in Hout.
        -- apply Hleave. right. split; trivial. right. split; trivial.
           split; trivial. split; trivial. now left.
        -- destruct (contains full (lit "+CMS ERROR:")) eqn:Hcms.
           ++ apply Hleave. right. split; trivial. right. split; trivial.
              split; trivial. split; trivial. now right.
           ++ assert (Hkeep : Modem.keeps_reading full).
              { split; trivial. right. auto. }
              apply (Hnext (parts ++ [chunk])); auto. now rewrite Hany.
    + (* nothing waits *)
      cbn [app] in Hnext. rewrite app_nil_r in Hnext.
      destruct parts as [| part parts]; cbn [andb] in Hout.
      * apply (Hnext []); auto.
      * destruct (Modem.idle_expired p).
        -- apply Hleave. right. split; trivial.
           split; [discriminate | auto].
        -- apply (Hnext (part :: parts)); auto.
Qed.

(** X24.  The response of [send_sms_pdu], pass by pass.  There is a pass
    [k] of the loop such that every pass before it goes on: the deadline has
    not passed, and the chunk read leaves a text without [+CMGS:] that has [OK]
    but no line equal to [OK] (with or without [ERROR]), or that has neither
    [OK] nor an error token; or nothing waits and the line is not idle for
    too long after a chunk.  Pass [k] leaves the loop, and the response is
    the chunks read until then, in their order, with the chunk drained after
    a success indicator; or the run ends before any pass leaves, and the
    response is all the chunks.  As a pass that goes on does not leave
    ([goes_on_not_leaves]), [k] is the first pass that does not go on. *)
Theorem send_sms_pdu_response_trace (polls : list Modem.poll) :
  exists k : nat,
    (forall j p,
       (j < k)%nat -> nth_error polls j = Some p ->
       Modem.goes_on (Modem.delivered (firstn j polls)) p)
    /\ match nth_error polls k with
       | Some p =>
           exists result,
             Modem.leaves_with (Modem.delivered (firstn k polls)) p result
             /\ Modem.send_sms_pdu_response polls = concat result
       | None =>
           k = length polls
           /\ Modem.send_sms_pdu_response polls
              = concat (Modem.delivered polls)
       end.
Proof.
  destruct (read_loop_passes polls []) as (k & Hbefore & Hat).
  exists k. split; [exact Hbefore|].
  unfold Modem.send_sms_pdu_response.
  destruct (nth_error polls k) as [p |].
  - eexists. split; [exact Hat | reflexivity].
  - destruct Hat as [Hk Hres]. split; trivial. now rewrite Hres.
Qed.

(** An [ERROR] does not stop the loop while the text has [OK] and no line
    equal to [OK]: the loop reads on, here up to the [+CMGS:] of the next
    chunk. *)
Example send_sms_pdu_reads_past_error :
  Modem.send_sms_pdu_response
    [Modem.mkPoll true (Some (lit "ERROR LOOKUP")) false None;
     Modem.mkPoll true None false None;
     Modem.mkPoll true (Some (lit "+CMGS: 5")) false (Some (lit "OK"));
     Modem.mkPoll true (Some (lit "late")) false None]
  = lit "ERROR LOOKUP+CMGS: 5OK".
Proof. vm_compute. reflexivity. Qed.

(** ** lib/modem.py: [send_sms] and the transport *)

Lemma create_pdu_bad_number (number part : pystr)
    (ref_num part_num total_parts : Z) :
  Pdu.encode_phone_number number = None ->
  Pdu.create_pdu number part ref_num part_num total_parts = None.
Proof.
  intros H. unfold Pdu.create_pdu. rewrite create_pdu_octets_eq. cbv zeta.
  rewrite H.
  now destruct (if Encoding.is_gsm7_compatible part
                then Some (Pdu.encode_gsm7 part)
                else Pdu.encode_utf16_be part).
Qed.

(** [send_sms] always has a first part to build. *)
Lemma create_pdu_args_nonempty (text : pystr) (ref_num : Z)
    (args : list (pystr * Z * Z * Z)) :
  Modem.create_pdu_args text ref_num = Some args -> args <> [].
Proof.
  unfold Modem.create_pdu_args, Encoding.calculate_sms_parts.
  destruct (Encoding.is_gsm7_compatible text) eqn:Hgsm.
  - destruct (Encoding.weighted_count text <=? 160) eqn:Hw.
    + cbn [Z.eqb]. intros [= <-]. discriminate.
    + apply Z.leb_gt in Hw.
      destruct ((Encoding.weighted_count text + 152) / 153 =? 1);
        [intros [= <-]; discriminate|].
      destruct (@split_message_gsm7 text 153) as (parts & Hs & Hcat & _);
        [lia | trivial |].
      rewrite Hs. intros [= <-].
      destruct parts as [| part parts]; [| discriminate].
      cbn in Hcat. subst text. cbn in Hw. lia.
  - destruct (len text <=? 70) eqn:Hn.
    + cbn [Z.eqb]. intros [= <-]. discriminate.
    + apply Z.leb_gt in Hn.
      destruct ((len text + 66) / 67 =? 1); [intros [= <-]; discriminate|].
      destruct (@split_message_ucs2 text 67) as (parts & Hs & Hcat & _);
        [lia | trivial |].
      rewrite Hs. intros [= <-].
      destruct parts as [| part parts]; [| discriminate].
      cbn in Hcat. subst text. cbn in Hn. lia.
Qed.

Section TransportFacts.

Variable port : Type.
Variable send_sms_pdu : port -> pystr -> Z -> port * pystr.

(** X25.  When the number cannot be encoded, [send_sms] raises before
    anything is handed to [send_sms_pdu]: the serial line is left as it was,
    whatever the text and however many parts it has. *)
Theorem send_sms_bad_number (ser : port) (number text : pystr) (ref_num : Z) :
  Pdu.encode_phone_number number = None ->
  Modem.send_sms send_sms_pdu ser number text ref_num = (ser, None).
Proof.
  intros Hbad. unfold Modem.send_sms.
  destruct (Modem.create_pdu_args text ref_num) as [args |] eqn:Hargs;
    trivial.
  apply create_pdu_args_nonempty in Hargs.
  destruct args as [| [[[part r] i] n] args]; [contradiction|].
  cbn [Modem.send_parts].
  now rewrite (@create_pdu_bad_number number part r i n Hbad).
Qed.

End TransportFacts.

Lemma send_sms_bad_number_witness :
  Modem.send_sms (fun (ser : list pystr) pdu_hex _ => (ser ++ [pdu_hex], []))
    [] (lit "1+2") (lit "hello") 7
  = ([], None).
Proof.
  apply (@send_sms_bad_number (list pystr)
           (fun ser pdu_hex _ => (ser ++ [pdu_hex], []))
           [] (lit "1+2") (lit "hello") 7).
  by_computation.
Defined.
